(** * Storage helpers of [src/lib/storage.ts]

    A shallow embedding of the five exported functions of the module
    ([uploadImage], [deleteImage], [getTattooImagePath],
    [getGeneratedTattooImagePath], [blobUrlToFile]) together with the
    pieces of the JavaScript platform they call ([String.prototype.split],
    [Array.prototype.pop], template literals, [decodeURIComponent]),
    and the properties of the storage contract proved about them. *)

From Stdlib Require Import ZArith List Bool Ascii String Lia.
From Stdlib Require Import DecimalString DecimalZ.
Import ListNotations.

Local Open Scope Z_scope.

(** ** JavaScript strings

    A JavaScript string is a finite sequence of 16-bit code units.  A code
    unit is an integer; [code_unit] states the 16-bit range where a
    property depends on it. *)

Definition jsstring : Type := list Z.

Definition code_unit (c : Z) : Prop := 0 <= c < 65536.

Definition code_unit_of_ascii (a : ascii) : Z := Z.of_N (N_of_ascii a).

(** A string literal of the source whose characters are all ASCII. *)
Definition lit (s : string) : jsstring :=
  map code_unit_of_ascii (list_ascii_of_string s).

Definition jsstring_eqb (a b : jsstring) : bool :=
  if list_eq_dec Z.eq_dec a b then true else false.

(** [s.startsWith(p)], used to locate a separator. *)
Fixpoint starts_with (p s : jsstring) : bool :=
  match p, s with
  | [], _ => true
  | _ :: _, [] => false
  | a :: p', b :: s' => (a =? b) && starts_with p' s'
  end.

(** [s.includes(p)]: [p] occurs somewhere in [s]. *)
Fixpoint occurs (p s : jsstring) : bool :=
  starts_with p s
  || match s with
     | [] => false
     | _ :: s' => occurs p s'
     end.

(** ** [String.prototype.split] with a string separator and no limit

    The scan goes left to right.  At a position where the separator
    matches, the piece accumulated so far is emitted and the separator is
    stepped over ([skip] counts the code units of it still to pass);
    otherwise the current code unit joins the piece.  The end of the
    string emits the last piece, so the result is never empty for a
    non-empty separator.  An empty separator splits into code units. *)

Fixpoint split_scan (sep : jsstring) (skip : nat) (piece s : jsstring)
  : list jsstring :=
  match s with
  | [] => [piece]
  | c :: s' =>
      match skip with
      | S k => split_scan sep k piece s'
      | O =>
          if starts_with sep s
          then piece :: split_scan sep (Nat.pred (List.length sep)) [] s'
          else split_scan sep 0 (piece ++ [c]) s'
      end
  end.

Definition String_split (sep s : jsstring) : list jsstring :=
  match sep with
  | [] => map (fun c => [c]) s
  | _ :: _ => split_scan sep 0 [] s
  end.

(** [Array.prototype.pop]: the last element, [undefined] on an empty array. *)
Fixpoint Array_pop {A : Type} (l : list A) : option A :=
  match l with
  | [] => None
  | [x] => Some x
  | _ :: l' => Array_pop l'
  end.

(** ** Template literals

    A substitution [${e}] applies [ToString] to the value of [e]: a string
    is inserted as it is, [undefined] becomes the text "undefined", and an
    integral Number of magnitude below 10^21 becomes its decimal digits
    with a leading "-" when negative.  [Date.now()] returns an integral
    time value (of magnitude at most 8.64e15), modelled as a [Z]. *)

Definition ToString_opt (v : option jsstring) : jsstring :=
  match v with
  | Some s => s
  | None => lit "undefined"
  end.

Definition Number_toString (n : Z) : jsstring :=
  lit (NilEmpty.string_of_int (Z.to_int n)).

(** ** PathBuilder

    [Date.now()] is the only input the builders take from the environment;
    the captured reading is the explicit argument [timestamp]. *)

Definition user_category : jsstring := lit "tattoos".
Definition generated_category : jsstring := lit "generated_tattoos".

Definition file_extension (fileName : jsstring) : option jsstring :=
  Array_pop (String_split (lit ".") fileName).

(** [`tattoos/${userId}/${tattooId}_${timestamp}.${extension}`] *)
Definition getTattooImagePath (timestamp : Z)
           (userId tattooId fileName : jsstring) : jsstring :=
  let extension := file_extension fileName in
  lit "tattoos/" ++ userId ++ lit "/" ++ tattooId ++ lit "_"
    ++ Number_toString timestamp ++ lit "." ++ ToString_opt extension.

(** [`generated_tattoos/${userId}/${tattooId}_${timestamp}.png`] *)
Definition getGeneratedTattooImagePath (timestamp : Z)
           (userId tattooId : jsstring) : jsstring :=
  lit "generated_tattoos/" ++ userId ++ lit "/" ++ tattooId ++ lit "_"
    ++ Number_toString timestamp ++ lit ".png".

(** The code units [Number_toString] can produce. *)
Definition digit_or_minus (c : Z) : Prop := c = 45 \/ 48 <= c <= 57.

Definition dot : Z := 46.
Definition slash : Z := 47.


(** The slash-delimited segments of a key. *)
Definition segments (key : jsstring) : list jsstring :=
  String_split (lit "/") key.

(** ** URI component coding (ECMAScript [Encode] and [Decode])

    [encodeURIComponent] is what the storage provider applies to a key
    when it issues a download URL; [decodeURIComponent] is what
    [deleteImage] applies to get the key back. *)

Definition in_range (lo hi c : Z) : bool := (lo <=? c) && (c <=? hi).

Definition is_empty (s : jsstring) : bool :=
  match s with
  | [] => true
  | _ :: _ => false
  end.

Definition ascii_alpha (c : Z) : bool := in_range 65 90 c || in_range 97 122 c.
Definition ascii_digit (c : Z) : bool := in_range 48 57 c.

(** The characters [encodeURIComponent] leaves alone: letters, digits and
    the marks [- _ . ! ~ * ' ( )]. *)
Definition uri_unescaped (c : Z) : bool :=
  ascii_alpha c || ascii_digit c || existsb (Z.eqb c) (lit "-_.!~*'()").

Definition percent : Z := 37.

(** One uppercase hexadecimal digit, and the value of a digit of either case. *)
Definition hex_digit (n : Z) : Z := if n <? 10 then 48 + n else 55 + n.

Definition hex_value (c : Z) : option Z :=
  if in_range 48 57 c then Some (c - 48)
  else if in_range 65 70 c then Some (c - 55)
  else if in_range 97 102 c then Some (c - 87)
  else None.

Definition hex_octet (h l : Z) : option Z :=
  match hex_value h, hex_value l with
  | Some a, Some b => Some (16 * a + b)
  | _, _ => None
  end.

Definition percent_octet (b : Z) : jsstring :=
  [percent; hex_digit (b / 16); hex_digit (b mod 16)].

Definition percent_octets (bs : list Z) : jsstring := flat_map percent_octet bs.

(** UTF-8 form of a code point. *)
Definition utf8_encode (cp : Z) : list Z :=
  if cp <? 128 then [cp]
  else if cp <? 2048 then [192 + cp / 64; 128 + cp mod 64]
  else if cp <? 65536 then
    [224 + cp / 4096; 128 + (cp / 64) mod 64; 128 + cp mod 64]
  else
    [240 + cp / 262144; 128 + (cp / 4096) mod 64;
     128 + (cp / 64) mod 64; 128 + cp mod 64].

Definition high_surrogate (c : Z) : bool := in_range 55296 56319 c.
Definition low_surrogate (c : Z) : bool := in_range 56320 57343 c.

Definition surrogate_pair_code_point (lead trail : Z) : Z :=
  (lead - 55296) * 1024 + (trail - 56320) + 65536.

Definition UTF16EncodeCodePoint (cp : Z) : jsstring :=
  if cp <=? 65535 then [cp]
  else [(cp - 65536) / 1024 + 55296; (cp - 65536) mod 1024 + 56320].

(** [Encode]: an unescaped code unit is copied; otherwise the code point at
    that position is taken (a lone surrogate throws URIError, here [None])
    and each octet of its UTF-8 form is written as [%XX]. *)
Fixpoint encodeURIComponent (s : jsstring) : option jsstring :=
  match s with
  | [] => Some []
  | c :: rest =>
      if uri_unescaped c then option_map (cons c) (encodeURIComponent rest)
      else if high_surrogate c then
        match rest with
        | d :: rest' =>
            if low_surrogate d
            then option_map
                   (app (percent_octets
                           (utf8_encode (surrogate_pair_code_point c d))))
                   (encodeURIComponent rest')
            else None
        | [] => None
        end
      else if low_surrogate c then None
      else option_map (app (percent_octets (utf8_encode c)))
                      (encodeURIComponent rest)
  end.

(** Number of leading 1 bits of an octet (5 stands for "five or more"). *)
Definition leading_ones (b : Z) : nat :=
  if b <? 128 then 0%nat
  else if b <? 192 then 1%nat
  else if b <? 224 then 2%nat
  else if b <? 240 then 3%nat
  else if b <? 248 then 4%nat
  else 5%nat.

Definition continuation (b : Z) : bool := in_range 128 191 b.

(** The code point a list of octets is the valid UTF-8 encoding of: the
    trailing octets are continuation octets, the form is the shortest one,
    and the value is neither a surrogate nor above U+10FFFF. *)
Definition utf8_code_point (octets : list Z) : option Z :=
  match octets with
  | [b1; b2] =>
      let cp := (b1 - 192) * 64 + (b2 - 128) in
      if continuation b2 && (128 <=? cp) then Some cp else None
  | [b1; b2; b3] =>
      let cp := (b1 - 224) * 4096 + (b2 - 128) * 64 + (b3 - 128) in
      if continuation b2 && continuation b3 && (2048 <=? cp)
         && negb (in_range 55296 57343 cp)
      then Some cp else None
  | [b1; b2; b3; b4] =>
      let cp := (b1 - 240) * 262144 + (b2 - 128) * 4096
                + (b3 - 128) * 64 + (b4 - 128) in
      if continuation b2 && continuation b3 && continuation b4
         && in_range 65536 1114111 cp
      then Some cp else None
  | _ => None
  end.

(** [Decode] with an empty reserved set.  [need] is the number of
    continuation escapes still expected after the octets collected in
    [octets]; outside a multi-octet sequence it is 0.  [None] is the
    URIError the function throws on a truncated or non-hexadecimal escape
    and on octets that are not valid UTF-8. *)
Fixpoint Decode (octets : list Z) (need : nat) (s : jsstring)
  : option jsstring :=
  match need with
  | O =>
      match s with
      | [] => Some []
      | c :: rest =>
          if c =? percent then
            match rest with
            | h :: l :: r =>
                match hex_octet h l with
                | None => None
                | Some b =>
                    match leading_ones b with
                    | 0%nat => option_map (cons b) (Decode [] 0 r)
                    | 2%nat => Decode [b] 1 r
                    | 3%nat => Decode [b] 2 r
                    | 4%nat => Decode [b] 3 r
                    | _ => None
                    end
                end
            | _ => None
            end
          else option_map (cons c) (Decode [] 0 rest)
      end
  | S k =>
      match s with
      | p :: h :: l :: r =>
          if p =? percent then
            match hex_octet h l with
            | None => None
            | Some b =>
                match k with
                | O =>
                    match utf8_code_point (octets ++ [b]) with
                    | Some v =>
                        option_map (app (UTF16EncodeCodePoint v))
                                   (Decode [] 0 r)
                    | None => None
                    end
                | S _ => Decode (octets ++ [b]) k r
                end
            end
          else None
      | _ => None
      end
  end.

Definition decodeURIComponent (s : jsstring) : option jsstring :=
  Decode [] 0 s.

(** ** Values thrown and the outcome of a call

    What [catch (error)] receives is either an object, of which the
    handler of [deleteImage] reads the [code] property, or a primitive.
    For an [async] function, [Return v] is a promise fulfilled with [v] and
    [Throw e] a promise rejected with [e]; awaiting a rejected promise
    throws its reason. *)

Inductive thrown : Type :=
| ErrObject (name : string) (code : option jsstring)
| ErrPrimitive (text : string).

Inductive completion (A : Type) : Type :=
| Return (a : A)
| Throw (e : thrown).

Arguments Return {A} a.
Arguments Throw {A} e.

Definition TypeError_invalid_URL : thrown := ErrObject "TypeError" None.
Definition URIError_malformed : thrown := ErrObject "URIError" None.

Definition storage_error (code : string) : thrown :=
  ErrObject "FirebaseError" (Some (lit code)).

(** [error && typeof error === 'object'
      && error.code === 'storage/object-not-found'] *)
Definition is_object_not_found (error : thrown) : bool :=
  match error with
  | ErrObject _ (Some c) => jsstring_eqb c (lit "storage/object-not-found")
  | ErrObject _ None => false
  | ErrPrimitive _ => false
  end.

(** ** Files and blobs *)

Record Blob : Type := mkBlob
  { blob_bytes : list Z;
    blob_type : jsstring }.

Record File : Type := mkFile
  { file_bytes : list Z;
    file_name : jsstring;
    file_type : jsstring }.

(** [String.prototype.isWellFormed]: no surrogate stands alone. *)
Fixpoint isWellFormed (s : jsstring) : bool :=
  match s with
  | [] => true
  | c :: rest =>
      if high_surrogate c then
        match rest with
        | d :: rest' => low_surrogate d && isWellFormed rest'
        | [] => false
        end
      else negb (low_surrogate c) && isWellFormed rest
  end.

(** Conversion of a string to a [USVString], as an argument of that type
    undergoes it ([String.prototype.toWellFormed]): every surrogate that
    is not part of a pair becomes U+FFFD. *)
Fixpoint toWellFormed (s : jsstring) : jsstring :=
  match s with
  | [] => []
  | c :: rest =>
      if high_surrogate c then
        match rest with
        | d :: rest' =>
            if low_surrogate d then c :: d :: toWellFormed rest'
            else 65533 :: toWellFormed rest
        | [] => [65533]
        end
      else if low_surrogate c then 65533 :: toWellFormed rest
      else c :: toWellFormed rest
  end.

Definition printable_ascii (c : Z) : bool := in_range 32 126 c.

Definition ascii_lowercase (c : Z) : Z :=
  if in_range 65 90 c then c + 32 else c.

(** The [type] option of a [Blob] or [File] constructor: a type with a
    character outside U+0020 to U+007E becomes the empty string, any
    other is converted to ASCII lowercase. *)
Definition normalise_type (t : jsstring) : jsstring :=
  if forallb printable_ascii t then map ascii_lowercase t else [].

(** The form in which a [Blob] reports its type: printable ASCII in lower
    case (the form [normalise_type] produces). *)
Definition normalised_type (t : jsstring) : bool :=
  forallb (fun c => printable_ascii c && negb (in_range 65 90 c)) t.

(** [new File(bits, name, { type })]: the name is a [USVString], the type
    is normalised. *)
Definition File_new (bits : list Blob) (name type : jsstring) : File :=
  {| file_bytes := flat_map blob_bytes bits;
     file_name := toWellFormed name;
     file_type := normalise_type type |}.

(** What [fetch] resolves to; [response_blob] is the outcome of
    [response.blob()]. *)
Record Response : Type := mkResponse
  { response_blob : completion Blob }.

(** ** The platform the module runs on

    [W] is the state of everything outside the module (the object store,
    the registry of blob URLs), [R] the type of storage references.  The
    Firebase functions and [fetch] are functions of that state; [ref] and
    the URL parser are pure.  [url_pathname s] is [new URL(s).pathname],
    [None] when the constructor throws. *)

Record Platform (W R : Type) : Type := mkPlatform
  { url_pathname : jsstring -> option jsstring;
    storage_ref : jsstring -> completion R;
    store_uploadBytes : R -> File -> W -> completion unit * W;
    store_getDownloadURL : R -> W -> completion jsstring * W;
    store_deleteObject : R -> W -> completion unit * W;
    net_fetch : jsstring -> W -> completion Response * W }.

Arguments url_pathname {W R} _ _.
Arguments storage_ref {W R} _ _.
Arguments store_uploadBytes {W R} _ _ _ _.
Arguments store_getDownloadURL {W R} _ _ _.
Arguments store_deleteObject {W R} _ _ _.
Arguments net_fetch {W R} _ _ _.

(** Requests that leave the module. *)
Inductive call (R : Type) : Type :=
| Call_uploadBytes (r : R) (file : File)
| Call_getDownloadURL (r : R)
| Call_deleteObject (r : R)
| Call_fetch (url : jsstring).

Arguments Call_uploadBytes {R} r file.
Arguments Call_getDownloadURL {R} r.
Arguments Call_deleteObject {R} r.
Arguments Call_fetch {R} url.

(** The state threaded through a run: the outside world, the requests
    issued so far (oldest first) and the lines written by [console.error]. *)
Record state (W R : Type) : Type := mkState
  { world : W;
    calls : list (call R);
    console : list (jsstring * thrown) }.

Arguments mkState {W R} _ _ _.
Arguments world {W R} _.
Arguments calls {W R} _.
Arguments console {W R} _.

Definition M (W R A : Type) : Type := state W R -> completion A * state W R.

Definition ret {W R A} (a : A) : M W R A := fun st => (Return a, st).

Definition bind {W R A B} (m : M W R A) (k : A -> M W R B) : M W R B :=
  fun st =>
    match m st with
    | (Return a, st') => k a st'
    | (Throw e, st') => (Throw e, st')
    end.

Definition lift {W R A} (c : completion A) : M W R A := fun st => (c, st).

(** [try { body } catch (error) { handler }] *)
Definition try_catch {W R A} (body : M W R A) (handler : thrown -> M W R A)
  : M W R A :=
  fun st =>
    match body st with
    | (Return a, st') => (Return a, st')
    | (Throw e, st') => handler e st'
    end.

Definition console_error {W R} (message : jsstring) (error : thrown)
  : M W R unit :=
  fun st =>
    (Return tt,
     mkState (world st) (calls st) (console st ++ [(message, error)])).

(** A request: the event is recorded and the world answers. *)
Definition request {W R A} (ev : call R) (op : W -> completion A * W)
  : M W R A :=
  fun st =>
    let (res, w') := op (world st) in
    (res, mkState w' (calls st ++ [ev]) (console st)).

Declare Scope js_scope.
Notation "x <- m ;; k" := (bind m (fun x => k))
  (at level 61, m at next level, right associativity) : js_scope.
Local Open Scope js_scope.

(** ** The asynchronous functions of the module *)

Definition marker : jsstring := lit "/o/".

Definition error_message : jsstring := lit "Error deleting image:".

(** [a || ''] for [a] a string or [undefined]: both falsy values, the
    empty string and [undefined], give the empty string. *)
Definition or_empty (a : option jsstring) : jsstring :=
  match a with
  | Some s => s
  | None => []
  end.

(** [pathname.split('/o/')[1]?.split('?')[0] || ''] *)
Definition encoded_segment (pathname : jsstring) : jsstring :=
  or_empty
    match nth_error (String_split marker pathname) 1 with
    | Some after => nth_error (String_split (lit "?") after) 0
    | None => None
    end.

Section Module_functions.

Context {W R : Type}.
Variable P : Platform W R.

Definition uploadBytes (r : R) (file : File) : M W R unit :=
  request (Call_uploadBytes r file) (store_uploadBytes P r file).

Definition getDownloadURL (r : R) : M W R jsstring :=
  request (Call_getDownloadURL r) (store_getDownloadURL P r).

Definition deleteObject (r : R) : M W R unit :=
  request (Call_deleteObject r) (store_deleteObject P r).

Definition fetch (url : jsstring) : M W R Response :=
  request (Call_fetch url) (net_fetch P url).

(** Uploader *)
Definition uploadImage (file : File) (path : jsstring) : M W R jsstring :=
  storageRef <- lift (storage_ref P path) ;;
  _ <- uploadBytes storageRef file ;;
  downloadURL <- getDownloadURL storageRef ;;
  ret downloadURL.

(** The two statements that recover the path from the URL:
    [new URL(imageUrl)] throws a TypeError on a string that is not a
    URL, [decodeURIComponent] a URIError on a malformed escape. *)
Definition extract_path (imageUrl : jsstring) : completion jsstring :=
  match url_pathname P imageUrl with
  | None => Throw TypeError_invalid_URL
  | Some pathname =>
      match decodeURIComponent (encoded_segment pathname) with
      | None => Throw URIError_malformed
      | Some path => Return path
      end
  end.

Definition deleteImage_try (imageUrl : jsstring) : M W R unit :=
  path <- lift (extract_path imageUrl) ;;
  if is_empty path then ret tt
  else
    storageRef <- lift (storage_ref P path) ;;
    deleteObject storageRef.

Definition deleteImage_catch (error : thrown) : M W R unit :=
  if is_object_not_found error then ret tt
  else console_error error_message error.

(** Deleter *)
Definition deleteImage (imageUrl : jsstring) : M W R unit :=
  try_catch (deleteImage_try imageUrl) deleteImage_catch.

(** BlobConverter *)
Definition blobUrlToFile (blobUrl fileName : jsstring) : M W R File :=
  response <- fetch blobUrl ;;
  blob <- lift (response_blob response) ;;
  ret (File_new [blob] fileName
         (if is_empty (blob_type blob) then lit "image/png"
          else blob_type blob)).

(** A download URL issued for [key], as the parser of the platform sees
    it: the path component is some prefix, the marker, and the key as
    [encodeURIComponent] writes it; the marker in front of the key is
    the first one of the path.  A query string after it is not part of
    the path component. *)
Definition issued_for (url key : jsstring) : Prop :=
  exists prefix encoded,
    encodeURIComponent key = Some encoded
    /\ url_pathname P url = Some (prefix ++ marker ++ encoded)
    /\ occurs marker (prefix ++ lit "/o") = false.

End Module_functions.

(** ** A reference platform

    An executable instance of [Platform], used to run the functions on
    concrete inputs: a URL parser following the WHATWG basic URL parser
    for absolute URLs, and an object store held in memory.

    The parser covers scheme detection, the authority, the split of path,
    query and fragment, the handling of dot segments and the percent
    encoding of the path.  It does not validate the authority (host,
    port, credentials), beyond rejecting an empty one where the scheme
    requires a host, and leaves out the drive-letter rules of [file:]. *)

Module URLParser.

Definition to_lower (c : Z) : Z := if in_range 65 90 c then c + 32 else c.

Definition c0_or_space (c : Z) : bool := c <=? 32.
Definition tab_or_newline (c : Z) : bool :=
  (c =? 9) || (c =? 10) || (c =? 13).

Fixpoint drop_while (f : Z -> bool) (s : jsstring) : jsstring :=
  match s with
  | [] => []
  | c :: s' => if f c then drop_while f s' else s
  end.

Definition preprocess (s : jsstring) : jsstring :=
  let trimmed :=
    rev (drop_while c0_or_space (rev (drop_while c0_or_space s))) in
  filter (fun c => negb (tab_or_newline c)) trimmed.

Definition scheme_char (c : Z) : bool :=
  ascii_alpha c || ascii_digit c || (c =? 43) || (c =? 45) || (c =? 46).

Fixpoint scan_scheme (acc s : jsstring) : option (jsstring * jsstring) :=
  match s with
  | [] => None
  | c :: s' =>
      if c =? 58 then Some (acc, s')
      else if scheme_char c then scan_scheme (acc ++ [to_lower c]) s'
      else None
  end.

Definition parse_scheme (s : jsstring) : option (jsstring * jsstring) :=
  match s with
  | c :: _ => if ascii_alpha c then scan_scheme [] s else None
  | [] => None
  end.

Definition is_slash (c : Z) : bool := c =? 47.
Definition any_slash (c : Z) : bool := (c =? 47) || (c =? 92).
Definition query_or_fragment (c : Z) : bool := (c =? 63) || (c =? 35).

(** The code units before the first one satisfying [stop], and the rest. *)
Fixpoint break_at (stop : Z -> bool) (s : jsstring) : jsstring * jsstring :=
  match s with
  | [] => ([], [])
  | c :: s' =>
      if stop c then ([], s)
      else let (a, b) := break_at stop s' in (c :: a, b)
  end.

Fixpoint split_on (sep : Z -> bool) (piece s : jsstring) : list jsstring :=
  match s with
  | [] => [piece]
  | c :: s' =>
      if sep c then piece :: split_on sep [] s'
      else split_on sep (piece ++ [c]) s'
  end.

Definition path_percent_set (c : Z) : bool :=
  (c <=? 32) || (126 <? c)
  || existsb (Z.eqb c) [34; 35; 60; 62; 63; 94; 96; 123; 125].

Definition c0_percent_set (c : Z) : bool := (c <? 32) || (126 <? c).

(** UTF-8 percent-encoding of the code units in [set]; a lone surrogate
    is encoded as U+FFFD. *)
Fixpoint percent_encode (set : Z -> bool) (s : jsstring) : jsstring :=
  match s with
  | [] => []
  | c :: rest =>
      if negb (set c) then c :: percent_encode set rest
      else if high_surrogate c then
        match rest with
        | d :: rest' =>
            if low_surrogate d
            then percent_octets (utf8_encode (surrogate_pair_code_point c d))
                 ++ percent_encode set rest'
            else percent_octets (utf8_encode 65533) ++ percent_encode set rest
        | [] => percent_octets (utf8_encode 65533)
        end
      else if low_surrogate c
      then percent_octets (utf8_encode 65533) ++ percent_encode set rest
      else percent_octets (utf8_encode c) ++ percent_encode set rest
  end.

Definition single_dot (seg : jsstring) : bool :=
  let l := map to_lower seg in
  jsstring_eqb l (lit ".") || jsstring_eqb l (lit "%2e").

Definition double_dot (seg : jsstring) : bool :=
  let l := map to_lower seg in
  jsstring_eqb l (lit "..") || jsstring_eqb l (lit ".%2e")
  || jsstring_eqb l (lit "%2e.") || jsstring_eqb l (lit "%2e%2e").

(** The path state, one raw segment at a time. *)
Fixpoint path_state (out raw : list jsstring) : list jsstring :=
  match raw with
  | [] => out
  | seg :: more =>
      let last := match more with [] => true | _ :: _ => false end in
      let closing := if last then [[]] else [] in
      let out' :=
        if double_dot seg then removelast out ++ closing
        else if single_dot seg then out ++ closing
        else out ++ [percent_encode path_percent_set seg] in
      path_state out' more
  end.

Definition serialize_path (segs : list jsstring) : jsstring :=
  flat_map (fun seg => 47 :: seg) segs.

(** Path state entered on [s], the input from the first code unit of the
    path up to the query or fragment. *)
Definition hierarchical_path (sep : Z -> bool) (s : jsstring) : jsstring :=
  serialize_path (path_state [] (split_on sep [] s)).

(** Path start state: one leading slash is consumed. *)
Definition path_start (special : bool) (s : jsstring) : jsstring :=
  let sep := if special then any_slash else is_slash in
  match s with
  | [] => if special then [47] else []
  | c :: s' => hierarchical_path sep (if sep c then s' else s)
  end.

Definition special_scheme (scheme : jsstring) : bool :=
  existsb (jsstring_eqb scheme)
          [lit "http"; lit "https"; lit "ws"; lit "wss"; lit "ftp"].

Definition pathname (input : jsstring) : option jsstring :=
  match parse_scheme (preprocess input) with
  | None => None
  | Some (scheme, rest) =>
      let (body, _) := break_at query_or_fragment rest in
      if special_scheme scheme then
        let (authority, path) :=
          break_at any_slash (drop_while any_slash body) in
        if is_empty authority then None
        else Some (path_start true path)
      else if jsstring_eqb scheme (lit "file") then
        match body with
        | a :: b :: after =>
            if any_slash a && any_slash b
            then Some (path_start true (snd (break_at any_slash after)))
            else Some (hierarchical_path any_slash
                         (if any_slash a then b :: after else body))
        | _ => Some (hierarchical_path any_slash (drop_while any_slash body))
        end
      else
        match body with
        | a :: after =>
            if is_slash a then
              match after with
              | b :: after' =>
                  if is_slash b
                  then Some (path_start false
                               (snd (break_at is_slash after')))
                  else Some (hierarchical_path is_slash after)
              | [] => Some (hierarchical_path is_slash [])
              end
            else Some (percent_encode c0_percent_set body)
        | [] => Some []
        end
  end.

End URLParser.

Module MemoryStore.

Record memory : Type := mkMemory
  { objects : list (jsstring * File);
    blobs : list (jsstring * Blob) }.

Fixpoint lookup {A : Type} (k : jsstring) (m : list (jsstring * A))
  : option A :=
  match m with
  | [] => None
  | (k', v) :: m' => if jsstring_eqb k k' then Some v else lookup k m'
  end.

Definition remove {A : Type} (k : jsstring) (m : list (jsstring * A))
  : list (jsstring * A) :=
  filter (fun kv => negb (jsstring_eqb k (fst kv))) m.

Definition not_found : thrown := storage_error "storage/object-not-found".
Definition unauthorized : thrown := storage_error "storage/unauthorized".

Definition url_prefix : jsstring :=
  lit "https://firebasestorage.googleapis.com/v0/b/app.appspot.com".

Definition put (r : jsstring) (file : File) (w : memory)
  : completion unit * memory :=
  (Return tt, mkMemory ((r, file) :: remove r (objects w)) (blobs w)).

Definition resolve (r : jsstring) (w : memory)
  : completion jsstring * memory :=
  match lookup r (objects w), encodeURIComponent r with
  | None, _ => (Throw not_found, w)
  | Some _, None => (Throw URIError_malformed, w)
  | Some _, Some e =>
      (Return (url_prefix ++ marker ++ e ++ lit "?alt=media&token=t0"), w)
  end.

Definition delete (r : jsstring) (w : memory) : completion unit * memory :=
  match lookup r (objects w) with
  | None => (Throw not_found, w)
  | Some _ => (Return tt, mkMemory (remove r (objects w)) (blobs w))
  end.

Definition get_blob (url : jsstring) (w : memory)
  : completion Response * memory :=
  match lookup url (blobs w) with
  | None => (Throw (ErrObject "TypeError" None), w)
  | Some b => (Return (mkResponse (Return b)), w)
  end.

(** The store answers every request; a reference is the path given. *)
Definition platform : Platform memory jsstring :=
  {| url_pathname := URLParser.pathname;
     storage_ref := fun path => Return path;
     store_uploadBytes := put;
     store_getDownloadURL := resolve;
     store_deleteObject := delete;
     net_fetch := get_blob |}.

(** The store refuses every request with [error]. *)
Definition refusing (error : thrown) : Platform memory jsstring :=
  {| url_pathname := URLParser.pathname;
     storage_ref := fun path => Return path;
     store_uploadBytes := fun _ _ w => (Throw error, w);
     store_getDownloadURL := fun _ w => (Throw error, w);
     store_deleteObject := fun _ w => (Throw error, w);
     net_fetch := get_blob |}.

(** The store accepts a write and then fails to resolve the URL. *)
Definition write_only (error : thrown) : Platform memory jsstring :=
  {| url_pathname := URLParser.pathname;
     storage_ref := fun path => Return path;
     store_uploadBytes := put;
     store_getDownloadURL := fun _ w => (Throw error, w);
     store_deleteObject := delete;
     net_fetch := get_blob |}.

Definition start (w : memory) : state memory jsstring := mkState w [] [].

Definition photo : File :=
  mkFile [255; 216; 255] (lit "photo.jpg") (lit "image/jpeg").

Definition photo_key : jsstring :=
  getTattooImagePath 1700000000000 (lit "u1") (lit "t1") (lit "photo.jpg").

Definition photo_url : jsstring :=
  url_prefix ++ lit "/o/tattoos%2Fu1%2Ft1_1700000000000.jpg"
    ++ lit "?alt=media&token=t0".

Definition with_photo : memory := mkMemory [(photo_key, photo)] [].

(** A key whose identifiers hold a space, a non-ASCII letter, a
    character outside the basic plane, and the characters [?] and [%]. *)
Definition special_key : jsstring :=
  getTattooImagePath 1700000000000 [117; 32; 233; 55357; 56832]
    (lit "t?1%") (lit "my photo.jpg").

Definition special_encoded : jsstring :=
  lit "tattoos%2Fu%20%C3%A9%F0%9F%98%80%2Ft%3F1%25_1700000000000.jpg".

Definition special_url : jsstring :=
  url_prefix ++ marker ++ special_encoded ++ lit "?alt=media&token=t0".

Definition with_blobs : memory :=
  mkMemory []
    [(lit "blob:https://app.example/1", mkBlob [137; 80; 78; 71] (lit ""));
     (lit "blob:https://app.example/2",
      mkBlob [255; 216; 255] (lit "image/jpeg"))].

(** A blob URL is fetched, but the body of the response cannot be read. *)
Definition unreadable (error : thrown) : Platform memory jsstring :=
  {| url_pathname := URLParser.pathname;
     storage_ref := fun path => Return path;
     store_uploadBytes := put;
     store_getDownloadURL := resolve;
     store_deleteObject := delete;
     net_fetch := fun _ w => (Return (mkResponse (Throw error)), w) |}.

(** A URL of another host whose path holds the marker and an unencoded
    path after it, and one whose path holds the marker twice. *)
Definition foreign_url : jsstring :=
  lit "https://files.example/x/o/tattoos/u1/t1_1700000000000.jpg".

Definition two_marker_url : jsstring :=
  lit "https://files.example/x/o/tattoos%2Fu1/o/rest?alt=media".




End MemoryStore.

(** ** Predicates used in the statements *)

Definition octet (b : Z) : Prop := 0 <= b < 256.

Definition underscore : Z := 95.
Definition question : Z := 63.

(** A Unicode scalar value: a code point that is not a surrogate. *)
Definition scalar_value (cp : Z) : Prop :=
  0 <= cp < 1114112 /\ ~ (55296 <= cp <= 57343).

(** What [encodeURIComponent] writes: unescaped characters, ['%'] and
    uppercase hexadecimal digits. *)
Definition uri_encoded_unit (c : Z) : Prop :=
  uri_unescaped c = true \/ c = percent \/ 48 <= c <= 57 \/ 65 <= c <= 70.

(** A key one of the two builders returns for identifiers and a file name
    that are JavaScript strings. *)
Inductive builder_key : jsstring -> Prop :=
| user_key timestamp userId tattooId fileName :
    Forall code_unit userId -> Forall code_unit tattooId ->
    Forall code_unit fileName ->
    builder_key (getTattooImagePath timestamp userId tattooId fileName)
| generated_key timestamp userId tattooId :
    Forall code_unit userId -> Forall code_unit tattooId ->
    builder_key (getGeneratedTattooImagePath timestamp userId tattooId).

(** * Properties *)

(** ** Runs on concrete inputs *)

Example getTattooImagePath_photo_jpg :
  getTattooImagePath 1700000000000 (lit "u1") (lit "t1") (lit "photo.jpg")
  = lit "tattoos/u1/t1_1700000000000.jpg".
Proof. reflexivity. Qed.

Example getGeneratedTattooImagePath_g7 :
  getGeneratedTattooImagePath 1700000000000 (lit "u1") (lit "g7")
  = lit "generated_tattoos/u1/g7_1700000000000.png".
Proof. reflexivity. Qed.

Example String_split_runs :
  String_split (lit ".") (lit "a.tar.gz") = [lit "a"; lit "tar"; lit "gz"]
  /\ String_split (lit ".") (lit "") = [lit ""]
  /\ String_split (lit ".") (lit "a.") = [lit "a"; lit ""]
  /\ String_split (lit "/o/") (lit "/v0/b/x/o/k%2Fy")
     = [lit "/v0/b/x"; lit "k%2Fy"]
  /\ String_split (lit "/o/") (lit "/o/o/o/") = [lit ""; lit "o"; lit ""].
Proof. repeat split; reflexivity. Qed.

Example decodeURIComponent_runs :
  decodeURIComponent (lit "tattoos%2Fu1%2ft1.jpg")
  = Some (lit "tattoos/u1/t1.jpg")
  /\ decodeURIComponent (lit "%E2%82%AC") = Some [8364]
  /\ decodeURIComponent (lit "%F0%9F%98%80") = Some [55357; 56832]
  /\ decodeURIComponent (lit "%C0%80") = None
  /\ decodeURIComponent (lit "%ED%A0%80") = None
  /\ decodeURIComponent (lit "100%") = None
  /\ encodeURIComponent [55357] = None.
Proof. repeat split; reflexivity. Qed.

Example URL_pathname_runs :
  URLParser.pathname MemoryStore.photo_url
  = Some (lit "/v0/b/app.appspot.com/o/tattoos%2Fu1%2Ft1_1700000000000.jpg")
  /\ URLParser.pathname (lit "https://h/a/../b/./c/..") = Some (lit "/b/")
  /\ URLParser.pathname (lit "https://h/a b?q#f") = Some (lit "/a%20b")
  /\ URLParser.pathname (lit "https://h") = Some (lit "/")
  /\ URLParser.pathname (lit "/o/abc") = None
  /\ URLParser.pathname (lit "") = None.
Proof. repeat split; reflexivity. Qed.

(** Upload, then delete by the URL the upload returned: the object is
    gone and nothing is written to the console. *)
Example upload_then_delete :
  let empty := MemoryStore.mkMemory [] [] in
  let key := MemoryStore.photo_key in
  match uploadImage MemoryStore.platform MemoryStore.photo key
          (MemoryStore.start empty) with
  | (Return url, st) =>
      deleteImage MemoryStore.platform url st
      = (Return tt,
         mkState empty
           [Call_uploadBytes key MemoryStore.photo; Call_getDownloadURL key;
            Call_deleteObject key] [])
  | (Throw _, _) => False
  end.
Proof. reflexivity. Qed.


(** ** Literals and numbers *)

Lemma code_unit_of_ascii_inj a b :
  code_unit_of_ascii a = code_unit_of_ascii b -> a = b.
Proof.
  unfold code_unit_of_ascii. intros H.
  apply N2Z.inj in H.
  rewrite <- (ascii_N_embedding a), <- (ascii_N_embedding b).
  now f_equal.
Qed.

Lemma lit_inj s t : lit s = lit t -> s = t.
Proof.
  unfold lit. intros H.
  rewrite <- (string_of_list_ascii_of_string s).
  rewrite <- (string_of_list_ascii_of_string t).
  f_equal.
  revert H. generalize (list_ascii_of_string s) (list_ascii_of_string t).
  induction l as [|a l IH]; intros [|b l']; simpl; try discriminate; auto.
  intros [= Hab Hl]. f_equal; auto using code_unit_of_ascii_inj.
Qed.

Lemma Number_toString_inj a b :
  Number_toString a = Number_toString b -> a = b.
Proof.
  unfold Number_toString. intros H.
  apply lit_inj in H.
  apply DecimalZ.to_int_inj.
  assert (E : Some (Z.to_int a) = Some (Z.to_int b)).
  { rewrite <- (NilEmpty.isi (Z.to_int a)), <- (NilEmpty.isi (Z.to_int b)).
    now rewrite H. }
  now injection E.
Qed.

Lemma digits_of_uint d :
  Forall digit_or_minus (lit (NilEmpty.string_of_uint d)).
Proof.
  induction d; simpl; constructor; auto;
    right; vm_compute; split; discriminate.
Qed.

Lemma Number_toString_chars n : Forall digit_or_minus (Number_toString n).
Proof.
  unfold Number_toString.
  destruct (Z.to_int n) as [d|d]; simpl.
  - apply digits_of_uint.
  - constructor; [now left | apply digits_of_uint].
Qed.

(** ** [split] on a one-character separator *)

Lemma split_scan_char_cons c piece x s :
  split_scan [c] 0 piece (x :: s)
  = if c =? x then piece :: split_scan [c] 0 [] s
    else split_scan [c] 0 (piece ++ [x]) s.
Proof. simpl. now rewrite andb_true_r. Qed.

Lemma split_scan_char_absent c s : forall piece,
  ~ In c s -> split_scan [c] 0 piece s = [piece ++ s].
Proof.
  induction s as [|x s IH]; intros piece Hn.
  - simpl. now rewrite app_nil_r.
  - rewrite split_scan_char_cons.
    destruct (Z.eqb_spec c x) as [->|Hne].
    + exfalso. apply Hn. now left.
    + rewrite IH by (intros Hin; apply Hn; now right).
      now rewrite <- app_assoc.
Qed.

Lemma split_scan_char_first c p rest : forall piece,
  ~ In c p ->
  split_scan [c] 0 piece (p ++ c :: rest)
  = (piece ++ p) :: split_scan [c] 0 [] rest.
Proof.
  induction p as [|x p IH]; intros piece Hn.
  - simpl app. rewrite split_scan_char_cons, Z.eqb_refl.
    now rewrite app_nil_r.
  - simpl app. rewrite split_scan_char_cons.
    destruct (Z.eqb_spec c x) as [->|Hne].
    + exfalso. apply Hn. now left.
    + rewrite IH by (intros Hin; apply Hn; now right).
      now rewrite <- app_assoc.
Qed.

Lemma Array_pop_cons {A} (x : A) l :
  l <> [] -> Array_pop (x :: l) = Array_pop l.
Proof. destruct l; [congruence | reflexivity]. Qed.

Lemma split_scan_nonempty sep s : forall skip piece,
  split_scan sep skip piece s <> [].
Proof.
  induction s as [|x s IH]; intros skip piece; simpl.
  - discriminate.
  - destruct skip; [|apply IH].
    destruct (starts_with sep (x :: s)); [discriminate | apply IH].
Qed.

Lemma split_scan_char_last c ext stem : forall piece,
  ~ In c ext ->
  Array_pop (split_scan [c] 0 piece (stem ++ c :: ext)) = Some ext.
Proof.
  induction stem as [|x stem IH]; intros piece Hn.
  - simpl app. rewrite split_scan_char_cons, Z.eqb_refl.
    rewrite Array_pop_cons by apply split_scan_nonempty.
    now rewrite split_scan_char_absent.
  - simpl app. rewrite split_scan_char_cons.
    destruct (c =? x).
    + rewrite Array_pop_cons by apply split_scan_nonempty. apply IH, Hn.
    + apply IH, Hn.
Qed.



Lemma segments_first category rest :
  ~ In slash category ->
  nth_error (segments (category ++ slash :: rest)) 0 = Some category.
Proof.
  intros H. unfold segments. change (lit "/") with [slash].
  unfold String_split. now rewrite split_scan_char_first.
Qed.




Lemma Array_pop_defined {A} (l : list A) :
  l <> [] -> exists x, Array_pop l = Some x.
Proof.
  induction l as [|x l IH]; intros H; [congruence|].
  destruct l as [|y l]; [now exists x|].
  destruct IH as [z Hz]; [discriminate|].
  exists z. exact Hz.
Qed.

Lemma file_extension_defined fileName :
  exists ext, file_extension fileName = Some ext.
Proof. apply Array_pop_defined, split_scan_nonempty. Qed.

(** ** PathBuilder *)

Lemma file_extension_after_last_dot stem ext :
  ~ In dot ext -> file_extension (stem ++ lit "." ++ ext) = Some ext.
Proof. intros H. now apply split_scan_char_last. Qed.

Lemma file_extension_without_dot fileName :
  ~ In dot fileName -> file_extension fileName = Some fileName.
Proof.
  intros H. unfold file_extension.
  change (lit ".") with [dot]. unfold String_split.
  now rewrite (split_scan_char_absent _ _ [] H).
Qed.

(** A string containing ['.'] splits at its last ['.']. *)
Lemma last_dot_decomposition fileName :
  In dot fileName ->
  exists stem ext, fileName = stem ++ lit "." ++ ext /\ ~ In dot ext.
Proof.
  induction fileName as [|x f IH]; intros Hin; [contradiction|].
  destruct (in_dec Z.eq_dec dot f) as [Hf|Hf].
  - destruct (IH Hf) as (stem & ext & -> & Hext).
    now exists (x :: stem), ext.
  - destruct Hin as [->|Hin]; [|contradiction].
    now exists [], f.
Qed.

(** C3. For a file name with at least one ['.'], [getTattooImagePath]
    returns [<category>/<userId>/<tattooId>_<timestamp>.<ext>], with the
    category of user assets, the timestamp in decimal, and [ext] the part
    of the file name after its last ['.']: the file name is a stem, a
    ['.'] and [ext], and [ext] has no ['.']. *)
Theorem getTattooImagePath_shape timestamp userId tattooId fileName :
  In dot fileName ->
  exists stem ext,
    fileName = stem ++ lit "." ++ ext
    /\ ~ In dot ext
    /\ getTattooImagePath timestamp userId tattooId fileName
       = user_category ++ lit "/" ++ userId ++ lit "/" ++ tattooId ++ lit "_"
           ++ Number_toString timestamp ++ lit "." ++ ext.
Proof.
  intros Hin.
  destruct (last_dot_decomposition fileName Hin) as (stem & ext & -> & Hext).
  exists stem, ext. split; [reflexivity|]. split; [exact Hext|].
  unfold getTattooImagePath.
  now rewrite file_extension_after_last_dot.
Qed.

Lemma getTattooImagePath_shape_witness :
  In dot (lit "a.tar.gz")
  /\ exists stem ext,
       lit "a.tar.gz" = stem ++ lit "." ++ ext
       /\ ~ In dot ext
       /\ getTattooImagePath 1700000000000 (lit "u1") (lit "t1")
            (lit "a.tar.gz")
          = user_category ++ lit "/" ++ lit "u1" ++ lit "/" ++ lit "t1"
              ++ lit "_" ++ Number_toString 1700000000000 ++ lit "." ++ ext.
Proof.
  assert (H : In dot (lit "a.tar.gz")) by (vm_compute; tauto).
  split; [exact H|].
  exact (getTattooImagePath_shape 1700000000000 (lit "u1") (lit "t1")
           (lit "a.tar.gz") H).
Defined.

(** C2, as the code has it.  For a file name with no ['.'] the extension
    segment of the key is the whole file name: [split] returns the
    one-element array holding the name, so [pop] returns the name and
    never [undefined]. *)
Theorem getTattooImagePath_without_dot timestamp userId tattooId fileName :
  ~ In dot fileName ->
  getTattooImagePath timestamp userId tattooId fileName
  = user_category ++ lit "/" ++ userId ++ lit "/" ++ tattooId ++ lit "_"
      ++ Number_toString timestamp ++ lit "." ++ fileName.
Proof.
  intros H. unfold getTattooImagePath.
  now rewrite file_extension_without_dot.
Qed.

Lemma getTattooImagePath_without_dot_witness :
  ~ In dot (lit "photo")
  /\ getTattooImagePath 1700000000000 (lit "u1") (lit "t1") (lit "photo")
     = user_category ++ lit "/" ++ lit "u1" ++ lit "/" ++ lit "t1" ++ lit "_"
         ++ Number_toString 1700000000000 ++ lit "." ++ lit "photo".
Proof.
  assert (H : ~ In dot (lit "photo")).
  { vm_compute. intuition discriminate. }
  split; [exact H | apply (getTattooImagePath_without_dot _ _ _ _ H)].
Defined.

(** C2, as the claim states it, fails: the file name "photo" has no ['.'],
    and the key ends in ".photo", not in ".undefined". *)
Lemma getTattooImagePath_no_dot_is_not_undefined :
  ~ In dot (lit "photo")
  /\ getTattooImagePath 1700000000000 (lit "u1") (lit "t1") (lit "photo")
     = lit "tattoos/u1/t1_1700000000000.photo"
  /\ getTattooImagePath 1700000000000 (lit "u1") (lit "t1") (lit "photo")
     <> lit "tattoos/u1/t1_1700000000000.undefined".
Proof.
  split; [|split].
  - vm_compute. intuition discriminate.
  - reflexivity.
  - vm_compute. discriminate.
Qed.

(** C6. [getGeneratedTattooImagePath] returns a key of the same shape with
    the extension "png"; its first segment is the category of generated
    assets, which is not the category of user assets, the first segment
    of every key of [getTattooImagePath]. *)
Theorem getGeneratedTattooImagePath_shape timestamp userId tattooId :
  let key := getGeneratedTattooImagePath timestamp userId tattooId in
  key = generated_category ++ lit "/" ++ userId ++ lit "/" ++ tattooId
          ++ lit "_" ++ Number_toString timestamp ++ lit "." ++ lit "png"
  /\ (exists stem, key = stem ++ lit ".png")
  /\ nth_error (segments key) 0 = Some generated_category
  /\ generated_category <> user_category
  /\ forall timestamp' userId' tattooId' fileName',
       nth_error
         (segments (getTattooImagePath timestamp' userId' tattooId' fileName'))
         0 = Some user_category.
Proof.
  cbv zeta. split; [reflexivity|]. split; [|split; [|split]].
  - exists (lit "generated_tattoos/" ++ userId ++ lit "/" ++ tattooId
              ++ lit "_" ++ Number_toString timestamp).
    unfold getGeneratedTattooImagePath. now rewrite <- !app_assoc.
  - apply (segments_first generated_category
             (userId ++ lit "/" ++ tattooId ++ lit "_"
                ++ Number_toString timestamp ++ lit ".png")).
    vm_compute. intuition discriminate.
  - vm_compute. discriminate.
  - intros.
    apply (segments_first user_category
             (userId' ++ lit "/" ++ tattooId' ++ lit "_"
                ++ Number_toString timestamp' ++ lit "."
                ++ ToString_opt (file_extension fileName'))).
    vm_compute. intuition discriminate.
Qed.

(** Keys built from the same identifiers at different clock readings
    differ: the decimal text of the timestamp is injective and sits
    between the same prefix and suffix. *)
Lemma getTattooImagePath_timestamp_inj ts1 ts2 userId tattooId fileName :
  getTattooImagePath ts1 userId tattooId fileName
  = getTattooImagePath ts2 userId tattooId fileName ->
  ts1 = ts2.
Proof.
  unfold getTattooImagePath. intros H.
  do 5 apply app_inv_head in H.
  apply app_inv_tail in H.
  now apply Number_toString_inj.
Qed.

Lemma getGeneratedTattooImagePath_timestamp_inj ts1 ts2 userId tattooId :
  getGeneratedTattooImagePath ts1 userId tattooId
  = getGeneratedTattooImagePath ts2 userId tattooId ->
  ts1 = ts2.
Proof.
  unfold getGeneratedTattooImagePath. intros H.
  do 5 apply app_inv_head in H.
  apply app_inv_tail in H.
  now apply Number_toString_inj.
Qed.

(** C9. Each builder is a function of its arguments and of the captured
    timestamp: with identical arguments, equal timestamps give identical
    keys, and the keys differ only if the timestamps differ. *)
Theorem path_builders_deterministic ts1 ts2 userId tattooId fileName :
  (ts1 = ts2 ->
   getTattooImagePath ts1 userId tattooId fileName
   = getTattooImagePath ts2 userId tattooId fileName)
  /\ (getTattooImagePath ts1 userId tattooId fileName
      <> getTattooImagePath ts2 userId tattooId fileName ->
      ts1 <> ts2)
  /\ (ts1 = ts2 ->
      getGeneratedTattooImagePath ts1 userId tattooId
      = getGeneratedTattooImagePath ts2 userId tattooId)
  /\ (getGeneratedTattooImagePath ts1 userId tattooId
      <> getGeneratedTattooImagePath ts2 userId tattooId ->
      ts1 <> ts2).
Proof.
  repeat split; try (intros ->; reflexivity);
    intros Hne Heq; apply Hne; now rewrite Heq.
Qed.

Lemma path_builders_deterministic_witness :
  getTattooImagePath 1700000000000 (lit "u1") (lit "t1") (lit "photo.jpg")
  = getTattooImagePath 1700000000000 (lit "u1") (lit "t1") (lit "photo.jpg")
  /\ 1700000000000 <> 1700000000001
  /\ getGeneratedTattooImagePath 1700000000000 (lit "u1") (lit "t1")
     = getGeneratedTattooImagePath 1700000000000 (lit "u1") (lit "t1")
  /\ 1700000000000 <> 1700000000001.
Proof.
  pose proof (path_builders_deterministic 1700000000000 1700000000000
                (lit "u1") (lit "t1") (lit "photo.jpg")) as [A [_ [C _]]].
  pose proof (path_builders_deterministic 1700000000000 1700000000001
                (lit "u1") (lit "t1") (lit "photo.jpg")) as [_ [B [_ D]]].
  split; [apply A; reflexivity|].
  split; [apply B; vm_compute; discriminate|].
  split; [apply C; reflexivity|].
  apply D; vm_compute; discriminate.
Defined.


(** A ['/'] of the file name in front of its last ['.'] is not part of the
    extension and is not interpolated. *)
Example slash_in_stem_adds_no_segment :
  List.length
    (segments (getTattooImagePath 1700000000000 (lit "u1") (lit "t1")
                 (lit "a/b.jpg")))
  = 3%nat.
Proof. reflexivity. Qed.


(** ** Uploader *)

Section Uploader.

Context {W R : Type}.
Variable P : Platform W R.

(** C7. [uploadImage] writes the file at the reference of the path and
    then asks for the download URL of the same reference.  A failed
    write rejects with the error of the write, and no URL is asked for;
    a failed resolution rejects with the error of the resolution; when
    both succeed the URL resolved after the write is returned.  Each
    request is issued once, and nothing is caught or rewritten. *)
Theorem uploadImage_propagates file path r st :
  storage_ref P path = Return r ->
  (forall e w1,
      store_uploadBytes P r file (world st) = (Throw e, w1) ->
      uploadImage P file path st
      = (Throw e,
         mkState w1 (calls st ++ [Call_uploadBytes r file]) (console st)))
  /\ (forall w1 e w2,
         store_uploadBytes P r file (world st) = (Return tt, w1) ->
         store_getDownloadURL P r w1 = (Throw e, w2) ->
         uploadImage P file path st
         = (Throw e,
            mkState w2
              (calls st ++ [Call_uploadBytes r file; Call_getDownloadURL r])
              (console st)))
  /\ (forall w1 url w2,
         store_uploadBytes P r file (world st) = (Return tt, w1) ->
         store_getDownloadURL P r w1 = (Return url, w2) ->
         uploadImage P file path st
         = (Return url,
            mkState w2
              (calls st ++ [Call_uploadBytes r file; Call_getDownloadURL r])
              (console st))).
Proof.
  intros Href.
  unfold uploadImage, bind, lift, uploadBytes, getDownloadURL, request, ret.
  rewrite Href. cbn [world calls console].
  repeat split.
  - intros e w1 Hw. now rewrite Hw.
  - intros w1 e w2 Hw Hu. rewrite Hw. cbn [world calls console].
    rewrite Hu. now rewrite <- app_assoc.
  - intros w1 url w2 Hw Hu. rewrite Hw. cbn [world calls console].
    rewrite Hu. now rewrite <- app_assoc.
Qed.

(** An exception of [ref] leaves [uploadImage] before any request. *)
Lemma uploadImage_ref_throws file path e st :
  storage_ref P path = Throw e ->
  uploadImage P file path st = (Throw e, st).
Proof.
  intros Href. unfold uploadImage, bind, lift. now rewrite Href.
Qed.

End Uploader.

Lemma uploadImage_propagates_witness :
  let st := MemoryStore.start (MemoryStore.mkMemory [] []) in
  let up := Call_uploadBytes MemoryStore.photo_key MemoryStore.photo in
  let get := Call_getDownloadURL MemoryStore.photo_key in
  uploadImage (MemoryStore.refusing MemoryStore.unauthorized)
    MemoryStore.photo MemoryStore.photo_key st
  = (Throw MemoryStore.unauthorized, mkState (world st) [up] [])
  /\ uploadImage (MemoryStore.write_only MemoryStore.unauthorized)
       MemoryStore.photo MemoryStore.photo_key st
     = (Throw MemoryStore.unauthorized,
        mkState MemoryStore.with_photo [up; get] [])
  /\ uploadImage MemoryStore.platform
       MemoryStore.photo MemoryStore.photo_key st
     = (Return MemoryStore.photo_url,
        mkState MemoryStore.with_photo [up; get] []).
Proof.
  cbv zeta.
  destruct (uploadImage_propagates
              (MemoryStore.refusing MemoryStore.unauthorized)
              MemoryStore.photo MemoryStore.photo_key MemoryStore.photo_key
              (MemoryStore.start (MemoryStore.mkMemory [] [])) eq_refl)
    as [A _].
  destruct (uploadImage_propagates
              (MemoryStore.write_only MemoryStore.unauthorized)
              MemoryStore.photo MemoryStore.photo_key MemoryStore.photo_key
              (MemoryStore.start (MemoryStore.mkMemory [] [])) eq_refl)
    as [_ [B _]].
  destruct (uploadImage_propagates MemoryStore.platform
              MemoryStore.photo MemoryStore.photo_key MemoryStore.photo_key
              (MemoryStore.start (MemoryStore.mkMemory [] [])) eq_refl)
    as [_ [_ C]].
  split; [|split].
  - apply A. reflexivity.
  - apply (B MemoryStore.with_photo); reflexivity.
  - apply (C MemoryStore.with_photo); reflexivity.
Defined.

(** ** BlobConverter *)

Lemma isWellFormed_cons c rest :
  isWellFormed (c :: rest)
  = if high_surrogate c then
      match rest with
      | d :: rest' => low_surrogate d && isWellFormed rest'
      | [] => false
      end
    else negb (low_surrogate c) && isWellFormed rest.
Proof. reflexivity. Qed.

Lemma toWellFormed_cons c rest :
  toWellFormed (c :: rest)
  = if high_surrogate c then
      match rest with
      | d :: rest' =>
          if low_surrogate d then c :: d :: toWellFormed rest'
          else 65533 :: toWellFormed rest
      | [] => [65533]
      end
    else if low_surrogate c then 65533 :: toWellFormed rest
    else c :: toWellFormed rest.
Proof. reflexivity. Qed.

Lemma toWellFormed_well_formed s :
  isWellFormed s = true -> toWellFormed s = s.
Proof.
  enough (H : (isWellFormed s = true -> toWellFormed s = s)
              /\ forall c, isWellFormed (c :: s) = true ->
                           toWellFormed (c :: s) = c :: s) by apply H.
  induction s as [|a s [IH1 IH2]].
  - split; [reflexivity|]. intros c.
    rewrite isWellFormed_cons, toWellFormed_cons.
    destruct (high_surrogate c); [discriminate|].
    destruct (low_surrogate c); [discriminate | reflexivity].
  - split; [apply IH2|]. intros c.
    rewrite (isWellFormed_cons c), (toWellFormed_cons c).
    destruct (high_surrogate c).
    + destruct (low_surrogate a); [|discriminate].
      cbn [andb]. intros H. now rewrite IH1.
    + destruct (low_surrogate c); [discriminate|].
      cbn [negb andb]. intros H. now rewrite IH2.
Qed.

(** A lone surrogate does not survive the conversion. *)
Lemma toWellFormed_fixed s :
  toWellFormed s = s -> isWellFormed s = true.
Proof.
  enough (H : (toWellFormed s = s -> isWellFormed s = true)
              /\ forall c, toWellFormed (c :: s) = c :: s ->
                           isWellFormed (c :: s) = true) by apply H.
  induction s as [|a s [IH1 IH2]].
  - split; [reflexivity|]. intros c.
    rewrite isWellFormed_cons, toWellFormed_cons.
    destruct (high_surrogate c) eqn:Hh.
    + intros [= <-]. discriminate Hh.
    + destruct (low_surrogate c) eqn:Hl; [|reflexivity].
      intros [= <-]. discriminate Hl.
  - split; [apply IH2|]. intros c.
    rewrite (isWellFormed_cons c), (toWellFormed_cons c).
    destruct (high_surrogate c) eqn:Hh.
    + destruct (low_surrogate a).
      * intros [= H]. now rewrite IH1.
      * intros [= <- _]. discriminate Hh.
    + destruct (low_surrogate c) eqn:Hl.
      * intros [= <- _]. discriminate Hl.
      * intros [= H]. cbn [negb andb]. now apply IH2.
Qed.

Lemma normalise_type_normalised t :
  normalised_type t = true -> normalise_type t = t.
Proof.
  unfold normalised_type, normalise_type. intros H.
  assert (A : forallb printable_ascii t = true
              /\ map ascii_lowercase t = t).
  { induction t as [|c t IH]; [now split|].
    cbn [forallb map] in H |- *.
    apply andb_prop in H as [Hc Ht]. apply andb_prop in Hc as [Hp Hu].
    destruct (IH Ht) as [IHp IHm].
    rewrite Hp, IHp, IHm. split; [reflexivity|].
    unfold ascii_lowercase. apply negb_true_iff in Hu. now rewrite Hu. }
  destruct A as [-> ->]. reflexivity.
Qed.

Section BlobConverter.

Context {W R : Type}.
Variable P : Platform W R.

(** C8, as the code has it.  When the blob URL can be fetched and read,
    [blobUrlToFile] returns a file holding the bytes of the blob.  Its
    name is [fileName] converted to a [USVString], that is [fileName]
    with every lone surrogate replaced by U+FFFD, and so [fileName]
    itself when it is well formed.  Its type is the normalised form of
    the type of the blob, or of "image/png" when the blob has the empty
    type: the type of the blob itself when that is not empty, a blob
    reporting its type in normalised form, and "image/png" otherwise. *)
Theorem blobUrlToFile_file blobUrl fileName st response blob w' :
  net_fetch P blobUrl (world st) = (Return response, w') ->
  response_blob response = Return blob ->
  exists file,
    blobUrlToFile P blobUrl fileName st
    = (Return file,
       mkState w' (calls st ++ [Call_fetch blobUrl]) (console st))
    /\ file_name file = toWellFormed fileName
    /\ (isWellFormed fileName = true -> file_name file = fileName)
    /\ file_bytes file = blob_bytes blob
    /\ file_type file
       = normalise_type (if is_empty (blob_type blob) then lit "image/png"
                         else blob_type blob)
    /\ (blob_type blob <> [] -> normalised_type (blob_type blob) = true ->
        file_type file = blob_type blob)
    /\ (blob_type blob = [] -> file_type file = lit "image/png").
Proof.
  intros Hf Hb.
  unfold blobUrlToFile, bind, fetch, request, lift, ret.
  rewrite Hf, Hb.
  eexists. split; [reflexivity|].
  cbn [File_new file_name file_bytes file_type flat_map].
  split; [reflexivity|].
  split; [apply toWellFormed_well_formed|].
  split; [apply app_nil_r|].
  split; [reflexivity|].
  split.
  - intros Hne Hn. destruct (blob_type blob) as [|c t] eqn:Ht;
      [congruence|].
    cbn [is_empty]. now apply normalise_type_normalised.
  - intros ->. reflexivity.
Qed.

(** A failed fetch, or a body that cannot be read, rejects with the
    error of that step. *)
Lemma blobUrlToFile_fetch_fails blobUrl fileName st e w' :
  net_fetch P blobUrl (world st) = (Throw e, w') ->
  fst (blobUrlToFile P blobUrl fileName st) = Throw e.
Proof.
  intros Hf. unfold blobUrlToFile, bind, fetch, request. now rewrite Hf.
Qed.

Lemma blobUrlToFile_read_fails blobUrl fileName st response e w' :
  net_fetch P blobUrl (world st) = (Return response, w') ->
  response_blob response = Throw e ->
  fst (blobUrlToFile P blobUrl fileName st) = Throw e.
Proof.
  intros Hf Hb. unfold blobUrlToFile, bind, fetch, request, lift.
  now rewrite Hf, Hb.
Qed.

End BlobConverter.

Lemma blobUrlToFile_file_witness :
  (exists file,
      blobUrlToFile MemoryStore.platform (lit "blob:https://app.example/1")
        (lit "x.png") (MemoryStore.start MemoryStore.with_blobs)
      = (Return file,
         mkState MemoryStore.with_blobs
           [Call_fetch (lit "blob:https://app.example/1")] [])
      /\ file_name file = lit "x.png"
      /\ file_type file = lit "image/png")
  /\ (exists file,
         blobUrlToFile MemoryStore.platform (lit "blob:https://app.example/2")
           (lit "y.jpg") (MemoryStore.start MemoryStore.with_blobs)
         = (Return file,
            mkState MemoryStore.with_blobs
              [Call_fetch (lit "blob:https://app.example/2")] [])
         /\ file_name file = lit "y.jpg"
         /\ file_type file = lit "image/jpeg").
Proof.
  split.
  - destruct (blobUrlToFile_file MemoryStore.platform
                (lit "blob:https://app.example/1") (lit "x.png")
                (MemoryStore.start MemoryStore.with_blobs)
                (mkResponse (Return (mkBlob [137; 80; 78; 71] (lit ""))))
                (mkBlob [137; 80; 78; 71] (lit ""))
                MemoryStore.with_blobs eq_refl eq_refl)
      as [file [H1 [_ [H2 [_ [_ [_ H5]]]]]]].
    exists file. split; [exact H1|]. split; [apply H2; reflexivity|].
    apply H5. reflexivity.
  - destruct (blobUrlToFile_file MemoryStore.platform
                (lit "blob:https://app.example/2") (lit "y.jpg")
                (MemoryStore.start MemoryStore.with_blobs)
                (mkResponse
                   (Return (mkBlob [255; 216; 255] (lit "image/jpeg"))))
                (mkBlob [255; 216; 255] (lit "image/jpeg"))
                MemoryStore.with_blobs eq_refl eq_refl)
      as [file [H1 [_ [H2 [_ [_ [H4 _]]]]]]].
    exists file. split; [exact H1|]. split; [apply H2; reflexivity|].
    apply H4; [vm_compute; discriminate | reflexivity].
Defined.

(** C8, as the claim states it, fails.  The file name "a", a lone high
    surrogate, ".png" is a string [blobUrlToFile] can be called with; the
    name of the file returned has U+FFFD in the place of the surrogate
    and is not the file name given. *)
Lemma blobUrlToFile_name_lone_surrogate :
  let fileName := [97; 55357; 46; 112; 110; 103] in
  exists file,
    blobUrlToFile MemoryStore.platform (lit "blob:https://app.example/1")
      fileName (MemoryStore.start MemoryStore.with_blobs)
    = (Return file,
       mkState MemoryStore.with_blobs
         [Call_fetch (lit "blob:https://app.example/1")] [])
    /\ file_name file = [97; 65533; 46; 112; 110; 103]
    /\ file_name file <> fileName.
Proof.
  cbv zeta. eexists. split; [reflexivity|].
  split; [reflexivity | vm_compute; discriminate].
Qed.

(** ** URI component coding: decoding undoes encoding *)

Ltac euclid := Z.to_euclidean_division_equations; lia.

Lemma in_range_true lo hi c : lo <= c <= hi -> in_range lo hi c = true.
Proof.
  intros H. unfold in_range.
  apply andb_true_intro; split; apply Z.leb_le; lia.
Qed.

Lemma in_range_false lo hi c : c < lo \/ hi < c -> in_range lo hi c = false.
Proof.
  intros H. unfold in_range. apply andb_false_iff.
  destruct H; [left | right]; apply Z.leb_gt; lia.
Qed.

Lemma in_range_spec lo hi c : in_range lo hi c = true <-> lo <= c <= hi.
Proof.
  unfold in_range. rewrite andb_true_iff, !Z.leb_le. tauto.
Qed.

Lemma hex_value_digit n : 0 <= n < 16 -> hex_value (hex_digit n) = Some n.
Proof.
  intros H. unfold hex_value, hex_digit.
  destruct (Z.ltb_spec n 10).
  - rewrite in_range_true by lia. f_equal. lia.
  - rewrite in_range_false by lia. rewrite in_range_true by lia.
    f_equal. lia.
Qed.

Lemma hex_octet_digits b :
  octet b -> hex_octet (hex_digit (b / 16)) (hex_digit (b mod 16)) = Some b.
Proof.
  intros H. unfold octet in H. unfold hex_octet.
  rewrite !hex_value_digit by euclid.
  f_equal. euclid.
Qed.

Lemma Decode_plain c r :
  c <> percent ->
  Decode [] 0 (c :: r) = option_map (cons c) (Decode [] 0 r).
Proof.
  intros H. simpl. apply Z.eqb_neq in H. now rewrite H.
Qed.

Lemma Decode_lead b r :
  octet b ->
  Decode [] 0 (percent_octet b ++ r)
  = match leading_ones b with
    | 0%nat => option_map (cons b) (Decode [] 0 r)
    | 2%nat => Decode [b] 1 r
    | 3%nat => Decode [b] 2 r
    | 4%nat => Decode [b] 3 r
    | _ => None
    end.
Proof.
  intros H. unfold percent_octet. cbn [app Decode].
  rewrite Z.eqb_refl, hex_octet_digits by exact H. reflexivity.
Qed.

Lemma Decode_last octets b r :
  octet b ->
  Decode octets 1 (percent_octet b ++ r)
  = match utf8_code_point (octets ++ [b]) with
    | Some v => option_map (app (UTF16EncodeCodePoint v)) (Decode [] 0 r)
    | None => None
    end.
Proof.
  intros H. unfold percent_octet. cbn [app Decode].
  rewrite Z.eqb_refl, hex_octet_digits by exact H. reflexivity.
Qed.

Lemma Decode_more octets k b r :
  octet b ->
  Decode octets (S (S k)) (percent_octet b ++ r)
  = Decode (octets ++ [b]) (S k) r.
Proof.
  intros H. unfold percent_octet. cbn [app Decode].
  rewrite Z.eqb_refl, hex_octet_digits by exact H. reflexivity.
Qed.

Lemma leading_ones_0 b : b < 128 -> leading_ones b = 0%nat.
Proof. intros H. unfold leading_ones. apply Z.ltb_lt in H. now rewrite H. Qed.

Lemma leading_ones_2 b : 192 <= b < 224 -> leading_ones b = 2%nat.
Proof.
  intros H. unfold leading_ones.
  destruct (Z.ltb_spec b 128); [lia|].
  destruct (Z.ltb_spec b 192); [lia|].
  destruct (Z.ltb_spec b 224); [reflexivity | lia].
Qed.

Lemma leading_ones_3 b : 224 <= b < 240 -> leading_ones b = 3%nat.
Proof.
  intros H. unfold leading_ones.
  destruct (Z.ltb_spec b 128); [lia|].
  destruct (Z.ltb_spec b 192); [lia|].
  destruct (Z.ltb_spec b 224); [lia|].
  destruct (Z.ltb_spec b 240); [reflexivity | lia].
Qed.

Lemma leading_ones_4 b : 240 <= b < 248 -> leading_ones b = 4%nat.
Proof.
  intros H. unfold leading_ones.
  destruct (Z.ltb_spec b 128); [lia|].
  destruct (Z.ltb_spec b 192); [lia|].
  destruct (Z.ltb_spec b 224); [lia|].
  destruct (Z.ltb_spec b 240); [lia|].
  destruct (Z.ltb_spec b 248); [reflexivity | lia].
Qed.

Lemma utf8_encode_octets cp :
  0 <= cp < 1114112 -> Forall octet (utf8_encode cp).
Proof.
  intros H. unfold utf8_encode, octet.
  destruct (Z.ltb_spec cp 128); [|destruct (Z.ltb_spec cp 2048);
                                   [|destruct (Z.ltb_spec cp 65536)]];
    repeat constructor; euclid.
Qed.

Lemma UTF16EncodeCodePoint_unit c :
  code_unit c -> UTF16EncodeCodePoint c = [c].
Proof.
  unfold code_unit, UTF16EncodeCodePoint. intros H.
  destruct (Z.leb_spec c 65535); [reflexivity | lia].
Qed.

(** The octets written for a scalar value decode to its UTF-16 form. *)
Lemma Decode_utf8_encode cp r :
  scalar_value cp ->
  Decode [] 0 (percent_octets (utf8_encode cp) ++ r)
  = option_map (app (UTF16EncodeCodePoint cp)) (Decode [] 0 r).
Proof.
  intros [Hr Hs].
  unfold utf8_encode, percent_octets.
  destruct (Z.ltb_spec cp 128) as [H1|H1];
    [|destruct (Z.ltb_spec cp 2048) as [H2|H2];
      [|destruct (Z.ltb_spec cp 65536) as [H3|H3]]];
    cbn [flat_map]; rewrite app_nil_r, <- ?app_assoc.
  - (* one octet *)
    rewrite Decode_lead, leading_ones_0 by (unfold octet; lia).
    rewrite UTF16EncodeCodePoint_unit by (unfold code_unit; lia).
    now destruct (Decode [] 0 r).
  - (* two octets *)
    rewrite Decode_lead, leading_ones_2 by (unfold octet; euclid).
    rewrite Decode_last by (unfold octet; euclid).
    cbn [app utf8_code_point]. unfold continuation.
    rewrite in_range_true by euclid.
    replace ((192 + cp / 64 - 192) * 64 + (128 + cp mod 64 - 128))
      with cp by euclid.
    destruct (Z.leb_spec 128 cp); [|lia]. reflexivity.
  - (* three octets *)
    rewrite Decode_lead, leading_ones_3 by (unfold octet; euclid).
    rewrite Decode_more, Decode_last by (unfold octet; euclid).
    cbn [app utf8_code_point]. unfold continuation.
    rewrite !in_range_true by euclid.
    replace ((224 + cp / 4096 - 224) * 4096
             + (128 + (cp / 64) mod 64 - 128) * 64 + (128 + cp mod 64 - 128))
      with cp by euclid.
    rewrite in_range_false by lia.
    destruct (Z.leb_spec 2048 cp); [|lia]. reflexivity.
  - (* four octets *)
    rewrite Decode_lead, leading_ones_4 by (unfold octet; euclid).
    rewrite !Decode_more, Decode_last by (unfold octet; euclid).
    cbn [app utf8_code_point]. unfold continuation.
    rewrite !in_range_true by euclid.
    replace ((240 + cp / 262144 - 240) * 262144
             + (128 + (cp / 4096) mod 64 - 128) * 4096
             + (128 + (cp / 64) mod 64 - 128) * 64 + (128 + cp mod 64 - 128))
      with cp by euclid.
    rewrite ?in_range_true by lia. reflexivity.
Qed.

Lemma surrogate_pair_scalar lead trail :
  high_surrogate lead = true -> low_surrogate trail = true ->
  scalar_value (surrogate_pair_code_point lead trail).
Proof.
  unfold high_surrogate, low_surrogate, scalar_value,
    surrogate_pair_code_point.
  rewrite !in_range_spec. lia.
Qed.

Lemma UTF16EncodeCodePoint_pair lead trail :
  high_surrogate lead = true -> low_surrogate trail = true ->
  UTF16EncodeCodePoint (surrogate_pair_code_point lead trail) = [lead; trail].
Proof.
  unfold high_surrogate, low_surrogate, UTF16EncodeCodePoint,
    surrogate_pair_code_point.
  rewrite !in_range_spec. intros Hl Ht.
  destruct (Z.leb_spec ((lead - 55296) * 1024 + (trail - 56320) + 65536) 65535);
    [lia|].
  f_equal; [|f_equal]; euclid.
Qed.

Lemma uri_unescaped_not_percent c : uri_unescaped c = true -> c <> percent.
Proof.
  intros H ->. vm_compute in H. discriminate.
Qed.

(** Induction along the cases of [encodeURIComponent]. *)
Lemma encodeURIComponent_cases (Q : jsstring -> jsstring -> Prop) :
  Q [] [] ->
  (forall c rest e,
      uri_unescaped c = true ->
      encodeURIComponent rest = Some e -> Q rest e ->
      Q (c :: rest) (c :: e)) ->
  (forall c d rest e,
      uri_unescaped c = false ->
      high_surrogate c = true -> low_surrogate d = true ->
      encodeURIComponent rest = Some e -> Q rest e ->
      Q (c :: d :: rest)
        (percent_octets (utf8_encode (surrogate_pair_code_point c d)) ++ e)) ->
  (forall c rest e,
      uri_unescaped c = false ->
      high_surrogate c = false -> low_surrogate c = false ->
      encodeURIComponent rest = Some e -> Q rest e ->
      Q (c :: rest) (percent_octets (utf8_encode c) ++ e)) ->
  forall s e, encodeURIComponent s = Some e -> Q s e.
Proof.
  intros Hnil Hplain Hpair Hone s.
  remember (List.length s) as n eqn:Hn.
  revert s Hn.
  induction n as [n IH] using (well_founded_induction Wf_nat.lt_wf).
  intros [|c rest] Hn e He.
  - injection He as <-. exact Hnil.
  - cbn [encodeURIComponent] in He.
    destruct (uri_unescaped c) eqn:Hu.
    + destruct (encodeURIComponent rest) as [e'|] eqn:Hr; [|discriminate].
      injection He as <-.
      apply Hplain; auto.
      apply (IH (List.length rest));
        [subst n; simpl; lia | reflexivity | exact Hr].
    + destruct (high_surrogate c) eqn:Hh.
      * destruct rest as [|d rest']; [discriminate|].
        destruct (low_surrogate d) eqn:Hl; [|discriminate].
        destruct (encodeURIComponent rest') as [e'|] eqn:Hr; [|discriminate].
        injection He as <-.
        apply Hpair; auto.
        apply (IH (List.length rest'));
          [subst n; simpl; lia | reflexivity | exact Hr].
      * destruct (low_surrogate c) eqn:Hl; [discriminate|].
        destruct (encodeURIComponent rest) as [e'|] eqn:Hr; [|discriminate].
        injection He as <-.
        apply Hone; auto.
        apply (IH (List.length rest));
          [subst n; simpl; lia | reflexivity | exact Hr].
Qed.

(** [decodeURIComponent] recovers a string of code units from what
    [encodeURIComponent] wrote for it. *)
Lemma decode_encode s e :
  Forall code_unit s ->
  encodeURIComponent s = Some e ->
  decodeURIComponent e = Some s.
Proof.
  intros Hs He. revert Hs. unfold decodeURIComponent.
  pattern s, e. revert s e He.
  apply encodeURIComponent_cases.
  - reflexivity.
  - intros c rest e Hu _ IH Hs.
    inversion_clear Hs as [|? ? _ Hrest].
    rewrite Decode_plain by now apply uri_unescaped_not_percent.
    now rewrite IH.
  - intros c d rest e _ Hh Hl _ IH Hs.
    inversion_clear Hs as [|? ? _ Hs']. inversion_clear Hs' as [|? ? _ Hrest].
    rewrite Decode_utf8_encode by now apply surrogate_pair_scalar.
    rewrite IH by exact Hrest.
    now rewrite UTF16EncodeCodePoint_pair.
  - intros c rest e _ Hh Hl _ IH Hs.
    inversion Hs as [|? ? Hc Hrest]; subst.
    unfold high_surrogate, low_surrogate, in_range in Hh, Hl.
    rewrite Decode_utf8_encode.
    + rewrite IH by exact Hrest.
      now rewrite UTF16EncodeCodePoint_unit.
    + unfold code_unit in Hc. unfold scalar_value.
      apply andb_false_iff in Hh, Hl.
      rewrite !Z.leb_gt in Hh, Hl. lia.
Qed.

Lemma percent_octets_units bs :
  Forall octet bs -> Forall uri_encoded_unit (percent_octets bs).
Proof.
  induction 1 as [|b bs Hb _ IH]; [constructor|].
  unfold percent_octets. cbn [flat_map].
  unfold percent_octet at 1. cbn [app].
  unfold octet in Hb.
  assert (D : forall n, 0 <= n < 16 -> uri_encoded_unit (hex_digit n)).
  { intros n Hn. unfold uri_encoded_unit, hex_digit.
    destruct (Z.ltb_spec n 10); right; right; lia. }
  constructor; [right; now left|].
  constructor; [apply D; euclid|].
  constructor; [apply D; euclid | exact IH].
Qed.

Lemma encodeURIComponent_units s e :
  Forall code_unit s ->
  encodeURIComponent s = Some e ->
  Forall uri_encoded_unit e.
Proof.
  intros Hs He. revert Hs. pattern s, e. revert s e He.
  apply encodeURIComponent_cases.
  - constructor.
  - intros c rest e Hu _ IH Hs. inversion_clear Hs.
    constructor; [now left | auto].
  - intros c d rest e _ Hh Hl _ IH Hs.
    inversion_clear Hs as [|? ? _ Hs']. inversion_clear Hs' as [|? ? _ Hrest].
    apply Forall_app. split; [|auto].
    apply percent_octets_units, utf8_encode_octets.
    apply (surrogate_pair_scalar _ _ Hh Hl).
  - intros c rest e _ _ _ _ IH Hs.
    inversion Hs as [|? ? Hc Hrest]; subst.
    apply Forall_app. split; [|auto].
    apply percent_octets_units, utf8_encode_octets.
    unfold code_unit in Hc. lia.
Qed.

Lemma uri_encoded_unit_not_slash : ~ uri_encoded_unit slash.
Proof.
  unfold uri_encoded_unit, slash, percent.
  intros [H|[H|H]]; [vm_compute in H; discriminate | discriminate | lia].
Qed.

Lemma uri_encoded_unit_not_question : ~ uri_encoded_unit 63.
Proof.
  unfold uri_encoded_unit, percent.
  intros [H|[H|H]]; [vm_compute in H; discriminate | discriminate | lia].
Qed.

Lemma encodeURIComponent_nonempty s e :
  encodeURIComponent s = Some e -> s <> [] -> e <> [].
Proof.
  intros He. pattern s, e. revert s e He.
  apply encodeURIComponent_cases; try congruence;
    intros; unfold utf8_encode;
    repeat match goal with |- context [if ?b then _ else _] => destruct b end;
    discriminate.
Qed.

(** ** [split] on a longer separator *)

Lemma starts_with_app p rest : starts_with p (p ++ rest) = true.
Proof.
  induction p as [|a p IH]; [reflexivity|].
  simpl. now rewrite Z.eqb_refl, IH.
Qed.

Lemma starts_with_prefix p : forall x y,
  starts_with p (x ++ y) = true ->
  (List.length p <= List.length x)%nat ->
  starts_with p x = true.
Proof.
  induction p as [|a p IH]; intros x y H Hlen; [reflexivity|].
  destruct x as [|b x]; [simpl in Hlen; lia|].
  simpl in H |- *. apply andb_prop in H as [Hab Hp].
  rewrite Hab. simpl. apply (IH x y Hp). simpl in Hlen. lia.
Qed.

Lemma split_scan_skip sep xs rest : forall piece,
  split_scan sep (List.length xs) piece (xs ++ rest)
  = split_scan sep 0 piece rest.
Proof.
  induction xs as [|x xs IH]; intros piece; [reflexivity|].
  simpl. apply IH.
Qed.

Lemma split_scan_match sep rest piece :
  sep <> [] ->
  split_scan sep 0 piece (sep ++ rest) = piece :: split_scan sep 0 [] rest.
Proof.
  destruct sep as [|c sep']; [congruence|]. intros _.
  change ((c :: sep') ++ rest) with (c :: (sep' ++ rest)).
  cbn [split_scan].
  change (c :: sep' ++ rest) with ((c :: sep') ++ rest).
  rewrite starts_with_app.
  cbn [List.length Nat.pred]. now rewrite split_scan_skip.
Qed.

Lemma split_scan_absent sep s : forall piece,
  occurs sep s = false -> split_scan sep 0 piece s = [piece ++ s].
Proof.
  induction s as [|x s IH]; intros piece H.
  - simpl. now rewrite app_nil_r.
  - cbn [occurs] in H. apply orb_false_elim in H as [Hs Ho].
    cbn [split_scan]. rewrite Hs, IH by exact Ho.
    now rewrite <- app_assoc.
Qed.

Lemma split_scan_first sep prefix rest : forall piece,
  sep <> [] ->
  occurs sep (prefix ++ removelast sep) = false ->
  split_scan sep 0 piece (prefix ++ sep ++ rest)
  = (piece ++ prefix) :: split_scan sep 0 [] rest.
Proof.
  induction prefix as [|x p IH]; intros piece Hsep H.
  - rewrite app_nil_r, app_nil_l. now apply split_scan_match.
  - change ((x :: p) ++ removelast sep) with (x :: (p ++ removelast sep)) in H.
    cbn [occurs] in H. apply orb_false_elim in H as [Hs Ho].
    change ((x :: p) ++ sep ++ rest) with (x :: (p ++ sep ++ rest)).
    cbn [split_scan].
    destruct (starts_with sep (x :: p ++ sep ++ rest)) eqn:Hm.
    + exfalso.
      rewrite (app_removelast_last 0 Hsep) in Hm at 2.
      replace (x :: p ++ (removelast sep ++ [last sep 0]) ++ rest)
        with ((x :: p ++ removelast sep) ++ ([last sep 0] ++ rest)) in Hm
        by (simpl; now rewrite <- !app_assoc).
      apply starts_with_prefix in Hm; [congruence|].
      assert (L : List.length sep = S (List.length (removelast sep))).
      { rewrite (app_removelast_last 0 Hsep) at 1.
        rewrite length_app. simpl. lia. }
      simpl. rewrite length_app. lia.
    + rewrite IH by assumption. now rewrite <- app_assoc.
Qed.

Lemma occurs_needs_head c sep s :
  ~ In c s -> occurs (c :: sep) s = false.
Proof.
  induction s as [|x s IH]; intros H; [reflexivity|].
  cbn [occurs starts_with].
  destruct (Z.eqb_spec c x) as [->|Hne].
  - exfalso. apply H. now left.
  - simpl. apply IH. intros Hin. apply H. now right.
Qed.

(** The segment [deleteImage] takes from the path of an issued URL is the
    encoded key. *)
Lemma encoded_segment_issued prefix encoded :
  occurs marker (prefix ++ lit "/o") = false ->
  ~ In slash encoded -> ~ In 63 encoded ->
  encoded_segment (prefix ++ marker ++ encoded) = encoded.
Proof.
  intros Hp Hs Hq. unfold encoded_segment.
  change (String_split marker (prefix ++ marker ++ encoded))
    with (split_scan marker 0 [] (prefix ++ marker ++ encoded)).
  rewrite split_scan_first; [|discriminate | exact Hp].
  rewrite split_scan_absent by now apply occurs_needs_head.
  cbn [nth_error app].
  change (String_split (lit "?") encoded)
    with (split_scan [63] 0 [] encoded).
  now rewrite split_scan_char_absent.
Qed.

(** Without a second piece after the marker, the segment is empty. *)
Lemma encoded_segment_no_marker pathname :
  nth_error (String_split marker pathname) 1 = None ->
  encoded_segment pathname = [].
Proof. intros H. unfold encoded_segment. now rewrite H. Qed.

Lemma encoded_segment_marker_absent pathname :
  occurs marker pathname = false -> encoded_segment pathname = [].
Proof.
  intros H. apply encoded_segment_no_marker.
  change (String_split marker pathname)
    with (split_scan marker 0 [] pathname).
  now rewrite split_scan_absent.
Qed.

(** ** Keys of the path builders are strings of code units *)

Lemma lit_code_units s : Forall code_unit (lit s).
Proof.
  unfold lit. apply Forall_forall. intros c Hin.
  apply in_map_iff in Hin as [a [<- _]].
  unfold code_unit, code_unit_of_ascii.
  pose proof (N_ascii_bounded a). lia.
Qed.

Lemma split_scan_pieces (Q : Z -> Prop) sep s : forall skip piece,
  Forall Q piece -> Forall Q s ->
  Forall (Forall Q) (split_scan sep skip piece s).
Proof.
  induction s as [|x s IH]; intros skip piece Hp Hs.
  - simpl. constructor; [exact Hp | constructor].
  - inversion_clear Hs as [|? ? Hx Hs'].
    cbn [split_scan]. destruct skip; [|now apply IH].
    destruct (starts_with sep (x :: s)).
    + constructor; [exact Hp | apply IH; [constructor | exact Hs']].
    + apply IH; [|exact Hs'].
      apply Forall_app. split; [exact Hp | now constructor].
Qed.

Lemma Array_pop_In {A} (l : list A) x : Array_pop l = Some x -> In x l.
Proof.
  induction l as [|y l IH]; [discriminate|].
  destruct l as [|z l].
  - intros [= ->]. now left.
  - intros H. right. apply IH. exact H.
Qed.

Lemma file_extension_code_units fileName :
  Forall code_unit fileName ->
  Forall code_unit (ToString_opt (file_extension fileName)).
Proof.
  intros H. destruct (file_extension fileName) as [ext|] eqn:He.
  - apply Array_pop_In in He.
    pose proof (split_scan_pieces code_unit (lit ".") fileName 0 []
                  (Forall_nil _) H) as Hall.
    rewrite Forall_forall in Hall. now apply Hall.
  - apply lit_code_units.
Qed.

Lemma builder_key_code_units key : builder_key key -> Forall code_unit key.
Proof.
  intros [ts u t f Hu Ht Hf | ts u t Hu Ht];
    unfold getTattooImagePath, getGeneratedTattooImagePath, Number_toString;
    repeat (apply Forall_app; split);
    auto using lit_code_units, file_extension_code_units.
Qed.

Lemma builder_key_nonempty key : builder_key key -> key <> [].
Proof. intros [ts u t f _ _ _ | ts u t _ _]; discriminate. Qed.

(** ** Deleter *)

Section Deleter.

Context {W R : Type}.
Variable P : Platform W R.

(** Neither exception of the parsing statements carries the not-found
    code of the store. *)
Lemma extract_path_throws imageUrl e :
  extract_path P imageUrl = Throw e -> is_object_not_found e = false.
Proof.
  unfold extract_path.
  destruct (url_pathname P imageUrl) as [p|].
  - destruct (decodeURIComponent (encoded_segment p)).
    + discriminate.
    + now intros [= <-].
  - now intros [= <-].
Qed.

Lemma extract_path_issued url key :
  Forall code_unit key -> issued_for P url key ->
  extract_path P url = Return key.
Proof.
  intros Hk (prefix & encoded & He & Hp & Hm).
  pose proof (encodeURIComponent_units _ _ Hk He) as Hu.
  rewrite Forall_forall in Hu.
  unfold extract_path. rewrite Hp.
  rewrite encoded_segment_issued.
  - now rewrite (decode_encode _ _ Hk He).
  - exact Hm.
  - intros Hin. now apply Hu, uri_encoded_unit_not_slash in Hin.
  - intros Hin. now apply Hu, uri_encoded_unit_not_question in Hin.
Qed.

(** The run of [deleteImage] once a key has been recovered: one delete
    request, whose failure goes to the handler. *)
Lemma deleteImage_with_key imageUrl key r st :
  extract_path P imageUrl = Return key -> key <> [] ->
  storage_ref P key = Return r ->
  deleteImage P imageUrl st
  = (Return tt,
     mkState (snd (store_deleteObject P r (world st)))
       (calls st ++ [Call_deleteObject r])
       (console st
          ++ match fst (store_deleteObject P r (world st)) with
             | Return _ => []
             | Throw e =>
                 if is_object_not_found e then []
                 else [(error_message, e)]
             end)).
Proof.
  intros He Hk Hr.
  unfold deleteImage, try_catch, deleteImage_try, bind, lift.
  rewrite He. destruct key as [|c key]; [congruence|].
  cbn [is_empty]. rewrite Hr.
  unfold deleteObject, request. cbn [world calls console].
  destruct (store_deleteObject P r (world st)) as [[[]|e] w'];
    cbn [fst snd].
  - now rewrite app_nil_r.
  - unfold deleteImage_catch.
    destruct (is_object_not_found e); cbn; now rewrite ?app_nil_r.
Qed.

(** C1. For a key of a path builder and a download URL issued for it,
    the parsing statements of [deleteImage] return exactly the key, and
    [deleteImage] issues one request, the deletion of the reference of
    that key. *)
Theorem deleteImage_recovers_key url key r st :
  builder_key key ->
  issued_for P url key ->
  storage_ref P key = Return r ->
  extract_path P url = Return key
  /\ fst (deleteImage P url st) = Return tt
  /\ calls (snd (deleteImage P url st)) = calls st ++ [Call_deleteObject r].
Proof.
  intros Hb Hi Hr.
  assert (He : extract_path P url = Return key)
    by (apply extract_path_issued; auto using builder_key_code_units).
  split; [exact He|].
  rewrite (deleteImage_with_key url key r st He
             (builder_key_nonempty _ Hb) Hr).
  split; reflexivity.
Qed.

(** C4, as the code has it.  When the parsing statements yield no key,
    [deleteImage] issues no request and returns normally.  It leaves the
    console untouched when the URL parses and the path has no second
    piece after the marker, or an empty one; when [new URL] or
    [decodeURIComponent] throws, the exception is written to the console
    by the handler. *)
Theorem deleteImage_without_key imageUrl st :
  (forall pathname,
      url_pathname P imageUrl = Some pathname ->
      nth_error (String_split marker pathname) 1 = None ->
      deleteImage P imageUrl st = (Return tt, st))
  /\ (extract_path P imageUrl = Return [] ->
      deleteImage P imageUrl st = (Return tt, st))
  /\ (forall e,
         extract_path P imageUrl = Throw e ->
         deleteImage P imageUrl st
         = (Return tt,
            mkState (world st) (calls st)
              (console st ++ [(error_message, e)]))).
Proof.
  assert (E : extract_path P imageUrl = Return [] ->
              deleteImage P imageUrl st = (Return tt, st)).
  { intros He.
    unfold deleteImage, try_catch, deleteImage_try, bind, lift.
    now rewrite He. }
  split; [|split].
  - intros pathname Hp Hn. apply E.
    unfold extract_path. rewrite Hp.
    now rewrite encoded_segment_no_marker.
  - exact E.
  - intros e He.
    unfold deleteImage, try_catch, deleteImage_try, bind, lift.
    rewrite He. unfold deleteImage_catch.
    now rewrite (extract_path_throws _ _ He).
Qed.

(** C5. [deleteImage] returns normally whatever the URL and whatever the
    store answers.  A not-found failure of the delete request leaves no
    trace on the console; any other failure of it is written there with
    the message of the handler. *)
Theorem deleteImage_never_throws imageUrl st :
  fst (deleteImage P imageUrl st) = Return tt
  /\ (forall key r e w',
         extract_path P imageUrl = Return key -> key <> [] ->
         storage_ref P key = Return r ->
         store_deleteObject P r (world st) = (Throw e, w') ->
         (is_object_not_found e = true ->
          snd (deleteImage P imageUrl st)
          = mkState w' (calls st ++ [Call_deleteObject r]) (console st))
         /\ (is_object_not_found e = false ->
             snd (deleteImage P imageUrl st)
             = mkState w' (calls st ++ [Call_deleteObject r])
                 (console st ++ [(error_message, e)]))).
Proof.
  split.
  - unfold deleteImage, try_catch, deleteImage_try, bind, lift.
    unfold deleteImage_catch, deleteObject, request, console_error, ret.
    destruct (extract_path P imageUrl) as [path|e].
    + destruct (is_empty path); [reflexivity|].
      destruct (storage_ref P path) as [r|e].
      * destruct (store_deleteObject P r (world st)) as [[[]|e] w'];
          [reflexivity|].
        now destruct (is_object_not_found e).
      * now destruct (is_object_not_found e).
    + now destruct (is_object_not_found e).
  - intros key r e w' He Hk Hr Hd.
    rewrite (deleteImage_with_key imageUrl key r st He Hk Hr), Hd.
    cbn [fst snd].
    split; intros ->; [now rewrite app_nil_r | reflexivity].
Qed.

End Deleter.

Lemma deleteImage_recovers_key_witness :
  let P := MemoryStore.platform in
  let st := MemoryStore.start MemoryStore.with_photo in
  extract_path P MemoryStore.special_url = Return MemoryStore.special_key
  /\ fst (deleteImage P MemoryStore.special_url st) = Return tt
  /\ calls (snd (deleteImage P MemoryStore.special_url st))
     = calls st ++ [Call_deleteObject MemoryStore.special_key].
Proof.
  apply (deleteImage_recovers_key MemoryStore.platform
           MemoryStore.special_url MemoryStore.special_key
           MemoryStore.special_key
           (MemoryStore.start MemoryStore.with_photo)).
  - apply (user_key 1700000000000 [117; 32; 233; 55357; 56832]
             (lit "t?1%") (lit "my photo.jpg"));
      [|apply lit_code_units..].
    repeat (apply Forall_cons; [unfold code_unit; lia|]). apply Forall_nil.
  - exists (lit "/v0/b/app.appspot.com"), MemoryStore.special_encoded.
    split; [|split]; vm_compute; reflexivity.
  - reflexivity.
Defined.

Lemma deleteImage_without_key_witness :
  let P := MemoryStore.platform in
  let st := MemoryStore.start MemoryStore.with_photo in
  deleteImage P (lit "https://example.com/images/cat.png") st
  = (Return tt, st)
  /\ deleteImage P (lit "https://example.com/v0/b/x/o/?alt=media") st
     = (Return tt, st)
  /\ deleteImage P (lit "https://example.com/v0/b/x/o/%E0%A4%A") st
     = (Return tt,
        mkState (world st) (calls st)
          (console st ++ [(error_message, URIError_malformed)])).
Proof.
  cbv zeta.
  destruct (deleteImage_without_key MemoryStore.platform
              (lit "https://example.com/images/cat.png")
              (MemoryStore.start MemoryStore.with_photo)) as [A _].
  destruct (deleteImage_without_key MemoryStore.platform
              (lit "https://example.com/v0/b/x/o/?alt=media")
              (MemoryStore.start MemoryStore.with_photo)) as [_ [B _]].
  destruct (deleteImage_without_key MemoryStore.platform
              (lit "https://example.com/v0/b/x/o/%E0%A4%A")
              (MemoryStore.start MemoryStore.with_photo)) as [_ [_ C]].
  split; [|split].
  - apply (A (lit "/images/cat.png")); reflexivity.
  - apply B. reflexivity.
  - apply C. reflexivity.
Defined.

(** C4, as the claim states it, fails.  The string "not a url" is rejected
    by [new URL], so no key is found and no request is issued, and
    [deleteImage] returns normally; but the call is not silent: the
    handler writes the TypeError to the console. *)
Lemma deleteImage_malformed_url_is_reported :
  let P := MemoryStore.platform in
  let st := MemoryStore.start MemoryStore.with_photo in
  url_pathname P (lit "not a url") = None
  /\ extract_path P (lit "not a url") = Throw TypeError_invalid_URL
  /\ fst (deleteImage P (lit "not a url") st) = Return tt
  /\ calls (snd (deleteImage P (lit "not a url") st)) = []
  /\ console st = []
  /\ console (snd (deleteImage P (lit "not a url") st))
     = [(error_message, TypeError_invalid_URL)]
  /\ deleteImage P (lit "not a url") st <> (Return tt, st).
Proof.
  cbv zeta. repeat split. vm_compute. discriminate.
Qed.

Lemma deleteImage_never_throws_witness :
  let gone := MemoryStore.start (MemoryStore.mkMemory [] []) in
  let st := MemoryStore.start MemoryStore.with_photo in
  let del := Call_deleteObject MemoryStore.photo_key in
  fst (deleteImage MemoryStore.platform MemoryStore.photo_url gone) = Return tt
  /\ snd (deleteImage MemoryStore.platform MemoryStore.photo_url gone)
     = mkState (world gone) [del] []
  /\ snd (deleteImage (MemoryStore.refusing MemoryStore.unauthorized)
            MemoryStore.photo_url st)
     = mkState (world st) [del] [(error_message, MemoryStore.unauthorized)].
Proof.
  cbv zeta.
  destruct (deleteImage_never_throws MemoryStore.platform
              MemoryStore.photo_url
              (MemoryStore.start (MemoryStore.mkMemory [] []))) as [A B].
  destruct (B MemoryStore.photo_key MemoryStore.photo_key
              MemoryStore.not_found (MemoryStore.mkMemory [] []))
    as [B1 _]; try reflexivity; [vm_compute; discriminate|].
  destruct (deleteImage_never_throws
              (MemoryStore.refusing MemoryStore.unauthorized)
              MemoryStore.photo_url
              (MemoryStore.start MemoryStore.with_photo)) as [_ C].
  destruct (C MemoryStore.photo_key MemoryStore.photo_key
              MemoryStore.unauthorized MemoryStore.with_photo)
    as [_ C2]; try reflexivity; [vm_compute; discriminate|].
  split; [exact A|]. split; [apply B1 | apply C2]; reflexivity.
Defined.

(** ** The reference platform: every URL it issues is inverted

    The URLs of [MemoryStore.resolve] satisfy [issued_for] for every key
    of a path builder, so on this platform an uploaded object is deleted
    by the URL its upload returned. *)

(** The printable ASCII characters that [encodeURIComponent] writes. *)
Lemma uri_encoded_unit_range c :
  uri_encoded_unit c ->
  33 <= c <= 126
  /\ ~ In c [34; 35; 47; 60; 62; 63; 92; 94; 96; 123; 125].
Proof.
  intros [H|[H|H]].
  - unfold uri_unescaped, ascii_alpha, ascii_digit in H.
    rewrite !orb_true_iff, !in_range_spec in H.
    destruct H as [[[H|H]|H]|H]; try (simpl; lia).
    cbn in H. rewrite !orb_true_iff, !Z.eqb_eq in H.
    simpl. lia.
  - unfold percent in H. subst c. simpl. lia.
  - simpl. lia.
Qed.

Lemma break_at_stop stop a c b :
  Forall (fun x => stop x = false) a -> stop c = true ->
  URLParser.break_at stop (a ++ c :: b) = (a, c :: b).
Proof.
  intros Ha Hc. induction Ha as [|x a Hx _ IH]; simpl.
  - now rewrite Hc.
  - now rewrite Hx, IH.
Qed.

Lemma split_on_none sep s : forall piece,
  Forall (fun x => sep x = false) s ->
  URLParser.split_on sep piece s = [piece ++ s].
Proof.
  induction s as [|x s IH]; intros piece H; simpl.
  - now rewrite app_nil_r.
  - inversion_clear H as [|? ? Hx Hs].
    rewrite Hx, IH by exact Hs. now rewrite <- app_assoc.
Qed.

Lemma percent_encode_id set s :
  Forall (fun x => set x = false) s -> URLParser.percent_encode set s = s.
Proof.
  induction 1 as [|x s Hx _ IH]; simpl; [reflexivity|].
  now rewrite Hx, IH.
Qed.

Lemma drop_while_head f c s :
  f c = false -> URLParser.drop_while f (c :: s) = c :: s.
Proof. intros H. simpl. now rewrite H. Qed.

Lemma filter_id {A} (f : A -> bool) s :
  Forall (fun x => f x = true) s -> filter f s = s.
Proof.
  induction 1 as [|x s Hx _ IH]; simpl; [reflexivity|].
  now rewrite Hx, IH.
Qed.

Lemma Forall_encoded (Q : Z -> Prop) e :
  (forall c, uri_encoded_unit c -> Q c) ->
  Forall uri_encoded_unit e -> Forall Q e.
Proof. intros H. apply Forall_impl, H. Qed.

Lemma encoded_no_any_slash c :
  uri_encoded_unit c -> URLParser.any_slash c = false.
Proof.
  intros H. apply uri_encoded_unit_range in H as [_ H]. simpl in H.
  unfold URLParser.any_slash.
  apply orb_false_iff; split; apply Z.eqb_neq; lia.
Qed.

Lemma encoded_no_query c :
  uri_encoded_unit c -> URLParser.query_or_fragment c = false.
Proof.
  intros H. apply uri_encoded_unit_range in H as [_ H]. simpl in H.
  unfold URLParser.query_or_fragment.
  apply orb_false_iff; split; apply Z.eqb_neq; lia.
Qed.

Lemma encoded_no_newline c :
  uri_encoded_unit c -> negb (URLParser.tab_or_newline c) = true.
Proof.
  intros H. apply uri_encoded_unit_range in H as [H _].
  unfold URLParser.tab_or_newline. apply negb_true_iff.
  rewrite !orb_false_iff. repeat split; apply Z.eqb_neq; lia.
Qed.

Lemma encoded_not_path_set c :
  uri_encoded_unit c -> URLParser.path_percent_set c = false.
Proof.
  intros H. apply uri_encoded_unit_range in H as [Hr H]. simpl in H.
  unfold URLParser.path_percent_set. cbn [existsb].
  rewrite !orb_false_iff.
  repeat split; try (apply Z.eqb_neq; lia);
    try (apply Z.leb_gt; lia); try (apply Z.ltb_ge; lia).
Qed.

Lemma Forall_false_of_existsb (f : Z -> bool) l :
  existsb f l = false -> Forall (fun x => f x = false) l.
Proof.
  induction l as [|x l IH]; simpl; intros H; constructor;
    apply orb_false_elim in H as [Hx Hl]; auto.
Qed.

Lemma trim_id s :
  URLParser.c0_or_space (hd 0 s) = false ->
  URLParser.c0_or_space (last s 0) = false ->
  rev (URLParser.drop_while URLParser.c0_or_space
         (rev (URLParser.drop_while URLParser.c0_or_space s))) = s.
Proof.
  destruct s as [|a s]; [reflexivity|]. intros Ha Hz.
  cbn [hd] in Ha. rewrite (drop_while_head _ _ _ Ha).
  assert (Hne : a :: s <> []) by discriminate.
  rewrite (app_removelast_last 0 Hne) at 1.
  rewrite rev_app_distr. cbn [rev app].
  rewrite (drop_while_head _ _ _ Hz).
  cbn [rev]. rewrite rev_involutive.
  symmetry. apply (app_removelast_last 0 Hne).
Qed.

Lemma dot_segments_need_head h e :
  h <> 46 -> h <> 37 -> 33 <= h <= 126 ->
  URLParser.single_dot (h :: e) = false
  /\ URLParser.double_dot (h :: e) = false.
Proof.
  intros H1 H2 Hr.
  assert (L : URLParser.to_lower h <> 46 /\ URLParser.to_lower h <> 37).
  { unfold URLParser.to_lower.
    destruct (in_range 65 90 h) eqn:E; [|tauto].
    apply in_range_spec in E. lia. }
  assert (N : forall t, jsstring_eqb (map URLParser.to_lower (h :: e)) t = true ->
                        hd 0 t = URLParser.to_lower h).
  { intros t Ht. unfold jsstring_eqb in Ht.
    destruct (list_eq_dec Z.eq_dec _ t) as [<-|]; [reflexivity|discriminate]. }
  unfold URLParser.single_dot, URLParser.double_dot. cbv zeta.
  split; rewrite !orb_false_iff; repeat split;
    apply not_true_is_false; intros Ht; apply N in Ht;
    cbn in Ht; lia.
Qed.

Lemma path_state_plain out seg more :
  URLParser.double_dot seg = false -> URLParser.single_dot seg = false ->
  URLParser.path_state out (seg :: more)
  = URLParser.path_state
      (out ++ [URLParser.percent_encode URLParser.path_percent_set seg]) more.
Proof. intros Hd Hs. cbn [URLParser.path_state]. now rewrite Hd, Hs. Qed.

(** The parser gives back the path under which the store issued a URL. *)
Lemma pathname_of_issued_url h e :
  h <> 46 -> h <> 37 -> Forall uri_encoded_unit (h :: e) ->
  URLParser.pathname
    (MemoryStore.url_prefix ++ marker ++ (h :: e) ++ lit "?alt=media&token=t0")
  = Some (lit "/v0/b/app.appspot.com" ++ marker ++ h :: e).
Proof.
  intros H1 H2 He.
  set (enc := h :: e) in *.
  set (url := MemoryStore.url_prefix ++ marker ++ enc
                ++ lit "?alt=media&token=t0").
  assert (Hpre : URLParser.preprocess url = url).
  { unfold URLParser.preprocess. cbv zeta. rewrite trim_id.
    - apply filter_id. unfold url.
      repeat (apply Forall_app; split);
        try (apply Forall_encoded with (2 := He), encoded_no_newline);
        apply Forall_forall, forallb_forall; reflexivity.
    - reflexivity.
    - unfold url.
      change (lit "?alt=media&token=t0")
        with (lit "?alt=media&token=t" ++ [48]).
      rewrite !app_assoc. now rewrite last_last. }
  unfold URLParser.pathname. rewrite Hpre.
  change (URLParser.parse_scheme url)
    with (Some (lit "https",
                (lit "//firebasestorage.googleapis.com/v0/b/app.appspot.com/o/"
                   ++ enc) ++ 63 :: lit "alt=media&token=t0")).
  cbv beta iota.
  rewrite break_at_stop; [|apply Forall_app; split|reflexivity].
  2: apply Forall_false_of_existsb; reflexivity.
  2: apply Forall_encoded with (2 := He), encoded_no_query.
  cbv beta iota.
  change (URLParser.special_scheme (lit "https")) with true. cbv iota.
  change (URLParser.drop_while URLParser.any_slash
            (lit "//firebasestorage.googleapis.com/v0/b/app.appspot.com/o/"
               ++ enc))
    with (lit "firebasestorage.googleapis.com"
            ++ 47 :: lit "v0/b/app.appspot.com/o/" ++ enc).
  rewrite break_at_stop;
    [|apply Forall_false_of_existsb; reflexivity | reflexivity].
  cbv beta iota.
  change (is_empty (lit "firebasestorage.googleapis.com")) with false.
  cbv iota. f_equal.
  change (URLParser.path_start true
            (47 :: lit "v0/b/app.appspot.com/o/" ++ enc))
    with (URLParser.serialize_path
            (URLParser.path_state []
               (lit "v0" :: lit "b" :: lit "app.appspot.com" :: lit "o"
                  :: URLParser.split_on URLParser.any_slash [] enc))).
  rewrite split_on_none
    by (apply Forall_encoded with (2 := He), encoded_no_any_slash).
  assert (Hr : 33 <= h <= 126).
  { inversion He as [|? ? Hh _]. now apply uri_encoded_unit_range in Hh. }
  destruct (dot_segments_need_head h e H1 H2 Hr) as [Hs Hd].
  rewrite !path_state_plain by (reflexivity || assumption).
  cbn [URLParser.path_state app].
  rewrite (percent_encode_id _ enc)
    by (apply Forall_encoded with (2 := He), encoded_not_path_set).
  unfold URLParser.serialize_path. cbn [flat_map].
  rewrite app_nil_r. reflexivity.
Qed.

Lemma encodeURIComponent_unescaped_head c s e :
  uri_unescaped c = true ->
  encodeURIComponent (c :: s) = Some e -> exists e', e = c :: e'.
Proof.
  intros Hc. cbn [encodeURIComponent]. rewrite Hc.
  destruct (encodeURIComponent s) as [e'|]; [|discriminate].
  intros [= <-]. now exists e'.
Qed.

Lemma MemoryStore_issued_for key encoded :
  builder_key key ->
  encodeURIComponent key = Some encoded ->
  issued_for MemoryStore.platform
    (MemoryStore.url_prefix ++ marker ++ encoded ++ lit "?alt=media&token=t0")
    key.
Proof.
  intros Hb He.
  pose proof (encodeURIComponent_units _ _ (builder_key_code_units _ Hb) He)
    as Hu.
  assert (Hh : exists h e', encoded = h :: e' /\ h <> 46 /\ h <> 37).
  { destruct Hb as [ts u t f _ _ _ | ts u t _ _].
    - apply (encodeURIComponent_unescaped_head 116) in He as [e' ->];
        [|reflexivity].
      exists 116, e'. repeat split; discriminate.
    - apply (encodeURIComponent_unescaped_head 103) in He as [e' ->];
        [|reflexivity].
      exists 103, e'. repeat split; discriminate. }
  destruct Hh as (h & e' & -> & H1 & H2).
  exists (lit "/v0/b/app.appspot.com"), (h :: e').
  split; [exact He|]. split; [|reflexivity].
  now apply pathname_of_issued_url.
Qed.

Lemma jsstring_eqb_refl s : jsstring_eqb s s = true.
Proof.
  unfold jsstring_eqb. now destruct (list_eq_dec Z.eq_dec s s).
Qed.

Lemma lookup_remove {A} k (m : list (jsstring * A)) :
  MemoryStore.lookup k (MemoryStore.remove k m) = None.
Proof.
  induction m as [|[k' v] m IH]; [reflexivity|].
  unfold MemoryStore.remove in *. cbn [filter fst].
  destruct (jsstring_eqb k k') eqn:E; cbn [negb]; [exact IH|].
  cbn [MemoryStore.lookup]. now rewrite E.
Qed.

(** On the reference platform, for every key of a path builder that can
    be encoded: the upload returns a URL, and [deleteImage] on that URL
    deletes the object at the key, with nothing written to the console. *)
Theorem upload_then_delete_by_url key encoded file w :
  builder_key key ->
  encodeURIComponent key = Some encoded ->
  exists url st,
    uploadImage MemoryStore.platform file key (MemoryStore.start w)
    = (Return url, st)
    /\ fst (deleteImage MemoryStore.platform url st) = Return tt
    /\ calls (snd (deleteImage MemoryStore.platform url st))
       = [Call_uploadBytes key file; Call_getDownloadURL key;
          Call_deleteObject key]
    /\ console (snd (deleteImage MemoryStore.platform url st)) = []
    /\ MemoryStore.lookup key
         (MemoryStore.objects
            (world (snd (deleteImage MemoryStore.platform url st))))
       = None.
Proof.
  intros Hb He.
  set (url := MemoryStore.url_prefix ++ marker ++ encoded
                ++ lit "?alt=media&token=t0").
  set (w1 := MemoryStore.mkMemory
               ((key, file) :: MemoryStore.remove key (MemoryStore.objects w))
               (MemoryStore.blobs w)).
  exists url,
    (mkState w1 [Call_uploadBytes key file; Call_getDownloadURL key] []).
  assert (Hup : uploadImage MemoryStore.platform file key (MemoryStore.start w)
                = (Return url,
                   mkState w1
                     [Call_uploadBytes key file; Call_getDownloadURL key] [])).
  { unfold uploadImage, bind, lift, uploadBytes, getDownloadURL, request, ret.
    cbn [MemoryStore.platform storage_ref store_uploadBytes
           store_getDownloadURL MemoryStore.start world calls console
           MemoryStore.put app].
    unfold MemoryStore.resolve.
    cbn [MemoryStore.objects MemoryStore.lookup].
    now rewrite jsstring_eqb_refl, He. }
  split; [exact Hup|].
  rewrite (deleteImage_with_key MemoryStore.platform url key key _
             (extract_path_issued _ _ _ (builder_key_code_units _ Hb)
                (MemoryStore_issued_for _ _ Hb He))
             (builder_key_nonempty _ Hb) eq_refl).
  cbn [MemoryStore.platform store_deleteObject world calls console fst snd].
  unfold MemoryStore.delete, w1.
  cbn [MemoryStore.objects MemoryStore.lookup].
  rewrite jsstring_eqb_refl. cbn [fst snd app MemoryStore.objects].
  repeat split. apply lookup_remove.
Qed.

(** * Further properties of the module *)

(** ** PathBuilder: which inputs a key determines *)

Lemma first_occurrence_unique (c : Z) a : forall b x y,
  ~ In c a -> ~ In c b ->
  a ++ c :: x = b ++ c :: y -> a = b /\ x = y.
Proof.
  induction a as [|h a IH]; intros [|k b] x y Ha Hb H; simpl in H.
  - injection H as ->. now split.
  - injection H as <- _. exfalso. apply Hb. now left.
  - injection H as -> _. exfalso. apply Ha. now left.
  - injection H as -> H.
    destruct (IH b x y) as [-> ->]; auto;
      intros Hin; [apply Ha | apply Hb]; now right.
Qed.

Lemma Number_toString_no_dot n : ~ In dot (Number_toString n).
Proof.
  intros Hin. pose proof (Number_toString_chars n) as H.
  rewrite Forall_forall in H. unfold dot in Hin.
  destruct (H _ Hin); lia.
Qed.

Lemma split_scan_char_pieces c s : forall piece,
  ~ In c piece ->
  Forall (fun p => ~ In c p) (split_scan [c] 0 piece s).
Proof.
  induction s as [|x s IH]; intros piece Hp.
  - simpl. now repeat constructor.
  - rewrite split_scan_char_cons.
    destruct (Z.eqb_spec c x) as [->|Hne].
    + constructor; [exact Hp | apply IH; intros []].
    + apply IH. intros Hin. apply in_app_or in Hin as [Hin|[->|[]]];
        [now apply Hp | congruence].
Qed.

Lemma file_extension_no_dot fileName ext :
  file_extension fileName = Some ext -> ~ In dot ext.
Proof.
  intros He. apply Array_pop_In in He.
  pose proof (split_scan_char_pieces dot fileName [] (fun H => H)) as Hall.
  rewrite Forall_forall in Hall. now apply Hall.
Qed.

(** X1. Two calls of a builder with the same identifiers (and file name)
    whose captured timestamps differ return different keys. *)
Theorem path_builders_timestamp_injective ts1 ts2 userId tattooId fileName :
  ts1 <> ts2 ->
  getTattooImagePath ts1 userId tattooId fileName
  <> getTattooImagePath ts2 userId tattooId fileName
  /\ getGeneratedTattooImagePath ts1 userId tattooId
     <> getGeneratedTattooImagePath ts2 userId tattooId.
Proof.
  intros Hne. split; intros Heq; apply Hne.
  - now apply getTattooImagePath_timestamp_inj in Heq.
  - now apply getGeneratedTattooImagePath_timestamp_inj in Heq.
Qed.

Lemma path_builders_timestamp_injective_witness :
  1700000000000 <> 1700000000001
  /\ getTattooImagePath 1700000000000 (lit "u1") (lit "t1") (lit "photo.jpg")
     <> getTattooImagePath 1700000000001 (lit "u1") (lit "t1")
          (lit "photo.jpg")
  /\ getGeneratedTattooImagePath 1700000000000 (lit "u1") (lit "t1")
     <> getGeneratedTattooImagePath 1700000000001 (lit "u1") (lit "t1").
Proof.
  assert (H : 1700000000000 <> 1700000000001) by lia.
  split; [exact H|].
  exact (path_builders_timestamp_injective 1700000000000 1700000000001
           (lit "u1") (lit "t1") (lit "photo.jpg") H).
Defined.

(** X2. For user identifiers without ['/'] and artifact identifiers
    without ['_'], a key determines the identifiers and the timestamp it
    was built from: two keys of [getTattooImagePath] are equal exactly
    when the user, the artifact, the timestamp and the extension of the
    file name agree (the rest of the file name does not enter the key),
    and two keys of [getGeneratedTattooImagePath] exactly when the user,
    the artifact and the timestamp agree. *)
Theorem path_builders_key_injective ts1 ts2 u1 u2 t1 t2 f1 f2 :
  ~ In slash u1 -> ~ In slash u2 ->
  ~ In underscore t1 -> ~ In underscore t2 ->
  (getTattooImagePath ts1 u1 t1 f1 = getTattooImagePath ts2 u2 t2 f2
   <-> u1 = u2 /\ t1 = t2 /\ ts1 = ts2
       /\ file_extension f1 = file_extension f2)
  /\ (getGeneratedTattooImagePath ts1 u1 t1
      = getGeneratedTattooImagePath ts2 u2 t2
      <-> u1 = u2 /\ t1 = t2 /\ ts1 = ts2).
Proof.
  intros Hu1 Hu2 Ht1 Ht2. split; split.
  - unfold getTattooImagePath. intros H.
    apply app_inv_head in H.
    apply (first_occurrence_unique slash) in H as [-> H]; auto.
    apply (first_occurrence_unique underscore) in H as [-> H]; auto.
    apply (first_occurrence_unique dot) in H as [Hn He];
      auto using Number_toString_no_dot.
    apply Number_toString_inj in Hn as ->.
    destruct (file_extension_defined f1) as [e1 E1].
    destruct (file_extension_defined f2) as [e2 E2].
    rewrite E1, E2 in He |- *. simpl in He. now subst.
  - intros (-> & -> & -> & He). unfold getTattooImagePath. now rewrite He.
  - unfold getGeneratedTattooImagePath. intros H.
    apply app_inv_head in H.
    apply (first_occurrence_unique slash) in H as [-> H]; auto.
    apply (first_occurrence_unique underscore) in H as [-> H]; auto.
    apply app_inv_tail in H.
    now apply Number_toString_inj in H as ->.
  - now intros (-> & -> & ->).
Qed.

Lemma path_builders_key_injective_witness :
  (getTattooImagePath 1700000000000 (lit "u1") (lit "t1") (lit "a.jpg")
   = getTattooImagePath 1700000000000 (lit "u1") (lit "t1") (lit "b.c.jpg"))
  /\ (getGeneratedTattooImagePath 1700000000000 (lit "u1") (lit "t1")
      = getGeneratedTattooImagePath 1700000000000 (lit "u1") (lit "t1")).
Proof.
  assert (S1 : ~ In slash (lit "u1")) by (vm_compute; intuition discriminate).
  assert (U1 : ~ In underscore (lit "t1"))
    by (vm_compute; intuition discriminate).
  destruct (path_builders_key_injective 1700000000000 1700000000000
              (lit "u1") (lit "u1") (lit "t1") (lit "t1")
              (lit "a.jpg") (lit "b.c.jpg") S1 S1 U1 U1) as [[_ A] [_ B]].
  split; [apply A | apply B]; repeat split; reflexivity.
Defined.

(** Identifiers that contain the separators can produce the same key. *)
Example path_builders_collision :
  getGeneratedTattooImagePath 1700000000000 (lit "a/b") (lit "c")
  = getGeneratedTattooImagePath 1700000000000 (lit "a") (lit "b/c").
Proof. reflexivity. Qed.

(** X3. The extension can be read back from the key: taking the extension
    of a key of [getTattooImagePath] the way the builder takes it from a
    file name gives the extension of the file name, for every file name,
    and the extension of a key of [getGeneratedTattooImagePath] is "png". *)
Theorem key_extension_preserved timestamp userId tattooId fileName :
  file_extension (getTattooImagePath timestamp userId tattooId fileName)
  = file_extension fileName
  /\ file_extension (getGeneratedTattooImagePath timestamp userId tattooId)
     = Some (lit "png").
Proof.
  split.
  - destruct (file_extension_defined fileName) as [ext He].
    unfold getTattooImagePath. rewrite He. cbn [ToString_opt].
    replace (lit "tattoos/" ++ userId ++ lit "/" ++ tattooId ++ lit "_"
               ++ Number_toString timestamp ++ lit "." ++ ext)
      with ((lit "tattoos/" ++ userId ++ lit "/" ++ tattooId ++ lit "_"
               ++ Number_toString timestamp) ++ lit "." ++ ext)
      by now rewrite <- !app_assoc.
    apply file_extension_after_last_dot.
    now apply (file_extension_no_dot fileName).
  - unfold getGeneratedTattooImagePath.
    replace (lit "generated_tattoos/" ++ userId ++ lit "/" ++ tattooId
               ++ lit "_" ++ Number_toString timestamp ++ lit ".png")
      with ((lit "generated_tattoos/" ++ userId ++ lit "/" ++ tattooId
               ++ lit "_" ++ Number_toString timestamp)
              ++ lit "." ++ lit "png")
      by now rewrite <- !app_assoc.
    apply file_extension_after_last_dot.
    vm_compute. intuition discriminate.
Qed.

(** ** What the asynchronous functions request and write *)

Section Requests.

Context {W R : Type}.
Variable P : Platform W R.

(** X4. [uploadImage] never writes to the console, and every request it
    issues is, in this order, the write and the URL resolution for the
    reference of its path: when [ref] throws it issues no request and
    leaves the state as it was, and otherwise it issues the write, alone
    when the call fails, or the write followed by the resolution. *)
Theorem uploadImage_frame file path st :
  console (snd (uploadImage P file path st)) = console st
  /\ match storage_ref P path with
     | Throw e => uploadImage P file path st = (Throw e, st)
     | Return r =>
         (calls (snd (uploadImage P file path st))
          = calls st ++ [Call_uploadBytes r file]
          /\ exists e, fst (uploadImage P file path st) = Throw e)
         \/ calls (snd (uploadImage P file path st))
            = calls st ++ [Call_uploadBytes r file; Call_getDownloadURL r]
     end.
Proof.
  unfold uploadImage, bind, lift, uploadBytes, getDownloadURL, request, ret.
  destruct (storage_ref P path) as [r|e]; [|now split].
  cbn [world calls console].
  destruct (store_uploadBytes P r file (world st)) as [[[]|e] w1];
    cbn [world calls console fst snd].
  - destruct (store_getDownloadURL P r w1) as [[url|e] w2];
      cbn [fst snd calls console];
      (split; [reflexivity | right; now rewrite <- app_assoc]).
  - split; [reflexivity | left; split; [reflexivity | now exists e]].
Qed.

(** X5. [deleteImage] issues at most one request, and that request is a
    deletion; the outside world changes only by that deletion; and the
    console gains at most one line, written with the message of the
    handler. *)
Theorem deleteImage_frame imageUrl st :
  let st' := snd (deleteImage P imageUrl st) in
  ((calls st' = calls st /\ world st' = world st)
   \/ exists r,
        calls st' = calls st ++ [Call_deleteObject r]
        /\ world st' = snd (store_deleteObject P r (world st)))
  /\ (console st' = console st
      \/ exists e, console st' = console st ++ [(error_message, e)]).
Proof.
  cbv zeta.
  unfold deleteImage, try_catch, deleteImage_try, bind, lift.
  unfold deleteImage_catch, deleteObject, request, console_error, ret.
  destruct (extract_path P imageUrl) as [path|e].
  - destruct (is_empty path); [split; now left|].
    destruct (storage_ref P path) as [r|e].
    + destruct (store_deleteObject P r (world st)) as [[[]|e] w'] eqn:Hd;
        cbn [fst snd world calls console].
      * split; [right; exists r; now rewrite Hd | now left].
      * destruct (is_object_not_found e); cbn [snd world calls console];
          (split; [right; exists r; now rewrite Hd|]);
          [now left | right; now exists e].
    + destruct (is_object_not_found e); cbn [snd world calls console];
        (split; [now left|]); [now left | right; now exists e].
  - destruct (is_object_not_found e); cbn [snd world calls console];
      (split; [now left|]); [now left | right; now exists e].
Qed.

(** X6. When a key is recovered from the URL and the store deletes the
    object, [deleteImage] returns normally having issued that one
    deletion, and writes nothing to the console. *)
Theorem deleteImage_silent_success imageUrl key r w' st :
  extract_path P imageUrl = Return key -> key <> [] ->
  storage_ref P key = Return r ->
  store_deleteObject P r (world st) = (Return tt, w') ->
  deleteImage P imageUrl st
  = (Return tt, mkState w' (calls st ++ [Call_deleteObject r]) (console st)).
Proof.
  intros He Hk Hr Hd.
  rewrite (deleteImage_with_key P imageUrl key r st He Hk Hr), Hd.
  cbn [fst snd]. now rewrite app_nil_r.
Qed.

Lemma encoded_segment_between prefix segment rest :
  occurs marker (prefix ++ lit "/o") = false ->
  occurs marker (segment ++ lit "/o") = false ->
  ~ In question segment ->
  encoded_segment (prefix ++ marker ++ segment ++ marker ++ rest) = segment.
Proof.
  intros Hp Hs Hq. unfold encoded_segment.
  change (String_split marker (prefix ++ marker ++ segment ++ marker ++ rest))
    with (split_scan marker 0 []
            (prefix ++ marker ++ segment ++ marker ++ rest)).
  rewrite split_scan_first; [|discriminate | exact Hp].
  rewrite split_scan_first; [|discriminate | exact Hs].
  cbn [nth_error app].
  change (String_split (lit "?") segment)
    with (split_scan [question] 0 [] segment).
  now rewrite split_scan_char_absent.
Qed.

Lemma encoded_segment_last prefix segment :
  occurs marker (prefix ++ lit "/o") = false ->
  occurs marker segment = false ->
  ~ In question segment ->
  encoded_segment (prefix ++ marker ++ segment) = segment.
Proof.
  intros Hp Hs Hq. unfold encoded_segment.
  change (String_split marker (prefix ++ marker ++ segment))
    with (split_scan marker 0 [] (prefix ++ marker ++ segment)).
  rewrite split_scan_first; [|discriminate | exact Hp].
  rewrite split_scan_absent by exact Hs.
  cbn [nth_error app].
  change (String_split (lit "?") segment)
    with (split_scan [question] 0 [] segment).
  now rewrite split_scan_char_absent.
Qed.

Lemma decodeURIComponent_without_percent s :
  ~ In percent s -> decodeURIComponent s = Some s.
Proof.
  unfold decodeURIComponent.
  induction s as [|c s IH]; intros H; [reflexivity|].
  rewrite Decode_plain by (intros ->; apply H; now left).
  rewrite IH; [reflexivity|]. intros Hin. apply H. now right.
Qed.

(** X7. [deleteImage] does not look at the host of the URL, and does not
    require the path after the marker to be percent-encoded: for any URL
    whose path is a prefix, the first marker, and a non-empty text with
    no ['%'], no ['?'] and no further marker, it requests the deletion of
    the reference of that text as it stands. *)
Theorem deleteImage_unencoded_segment imageUrl prefix segment r st :
  url_pathname P imageUrl = Some (prefix ++ marker ++ segment) ->
  occurs marker (prefix ++ lit "/o") = false ->
  occurs marker segment = false ->
  ~ In question segment -> ~ In percent segment ->
  segment <> [] ->
  storage_ref P segment = Return r ->
  extract_path P imageUrl = Return segment
  /\ fst (deleteImage P imageUrl st) = Return tt
  /\ calls (snd (deleteImage P imageUrl st))
     = calls st ++ [Call_deleteObject r].
Proof.
  intros Hu Hp Hs Hq Hpc Hne Hr.
  assert (He : extract_path P imageUrl = Return segment).
  { unfold extract_path. rewrite Hu, encoded_segment_last by assumption.
    now rewrite decodeURIComponent_without_percent. }
  split; [exact He|].
  rewrite (deleteImage_with_key P imageUrl segment r st He Hne Hr).
  split; reflexivity.
Qed.

(** X8. Of a path that holds the marker more than once, only the text
    between the first and the second marker is decoded; what follows the
    second marker has no influence on the path [deleteImage] works on. *)
Theorem extract_path_second_marker imageUrl prefix segment rest :
  url_pathname P imageUrl
  = Some (prefix ++ marker ++ segment ++ marker ++ rest) ->
  occurs marker (prefix ++ lit "/o") = false ->
  occurs marker (segment ++ lit "/o") = false ->
  ~ In question segment ->
  extract_path P imageUrl
  = match decodeURIComponent segment with
    | Some path => Return path
    | None => Throw URIError_malformed
    end.
Proof.
  intros Hu Hp Hs Hq. unfold extract_path.
  now rewrite Hu, encoded_segment_between.
Qed.

(** X10. [blobUrlToFile] issues the fetch of the blob URL and nothing
    else, and passes a failure on: when the fetch fails, or when the body
    of the response cannot be read, it rejects with the error of that
    step and builds no file. *)
Theorem blobUrlToFile_failure blobUrl fileName st :
  (forall e w',
      net_fetch P blobUrl (world st) = (Throw e, w') ->
      blobUrlToFile P blobUrl fileName st
      = (Throw e, mkState w' (calls st ++ [Call_fetch blobUrl]) (console st)))
  /\ (forall response e w',
         net_fetch P blobUrl (world st) = (Return response, w') ->
         response_blob response = Throw e ->
         blobUrlToFile P blobUrl fileName st
         = (Throw e,
            mkState w' (calls st ++ [Call_fetch blobUrl]) (console st))).
Proof.
  unfold blobUrlToFile, bind, fetch, request, lift.
  split.
  - intros e w' Hf. now rewrite Hf.
  - intros response e w' Hf Hb. now rewrite Hf, Hb.
Qed.

Lemma uploadImage_returns file path url st st1 :
  uploadImage P file path st = (Return url, st1) ->
  exists r w1 w2,
    storage_ref P path = Return r
    /\ store_uploadBytes P r file (world st) = (Return tt, w1)
    /\ store_getDownloadURL P r w1 = (Return url, w2)
    /\ st1 = mkState w2
               (calls st ++ [Call_uploadBytes r file; Call_getDownloadURL r])
               (console st).
Proof.
  unfold uploadImage, bind, lift, uploadBytes, getDownloadURL, request, ret.
  destruct (storage_ref P path) as [r|e]; [|discriminate].
  cbn [world calls console].
  destruct (store_uploadBytes P r file (world st)) as [[[]|e] w1] eqn:Hw;
    [|discriminate].
  cbn [world calls console].
  destruct (store_getDownloadURL P r w1) as [[u|e] w2] eqn:Hu;
    [|discriminate].
  cbn [world calls console].
  intros [= <- <-]. exists r, w1, w2.
  split; [reflexivity|]. split; [exact Hw|]. split; [exact Hu|].
  now rewrite <- app_assoc.
Qed.

(** X11. Upload, then delete by the returned URL: when [uploadImage]
    returns a URL for a key of a path builder and that URL is a download
    URL issued for the key, [deleteImage] on it returns normally and the
    requests of the two calls are the write, the resolution and the
    deletion, all three for the same reference, that of the key. *)
Theorem upload_then_delete_same_reference file key url st st1 :
  builder_key key ->
  uploadImage P file key st = (Return url, st1) ->
  issued_for P url key ->
  exists r,
    storage_ref P key = Return r
    /\ fst (deleteImage P url st1) = Return tt
    /\ calls (snd (deleteImage P url st1))
       = calls st ++ [Call_uploadBytes r file; Call_getDownloadURL r;
                      Call_deleteObject r].
Proof.
  intros Hb Hup Hi.
  apply uploadImage_returns in Hup as (r & w1 & w2 & Hr & _ & _ & ->).
  exists r. split; [exact Hr|].
  rewrite (deleteImage_with_key P url key r _
             (extract_path_issued P url key (builder_key_code_units _ Hb) Hi)
             (builder_key_nonempty _ Hb) Hr).
  cbn [fst snd calls]. split; [reflexivity|].
  now rewrite <- app_assoc.
Qed.


End Requests.

(** X9. [decodeURIComponent] inverts [encodeURIComponent] on every string
    of code units for which the latter returns, and the encoded text is
    printable ASCII free of the delimiters of a URL, among them ['/'],
    ['?'] and ['#']. *)
Theorem decodeURIComponent_inverts_encodeURIComponent s encoded :
  Forall code_unit s ->
  encodeURIComponent s = Some encoded ->
  decodeURIComponent encoded = Some s
  /\ Forall (fun c => 33 <= c <= 126
                      /\ ~ In c [34; 35; 47; 60; 62; 63; 92; 94; 96; 123; 125])
       encoded.
Proof.
  intros Hs He. split; [now apply decode_encode|].
  apply Forall_encoded with (2 := encodeURIComponent_units _ _ Hs He).
  apply uri_encoded_unit_range.
Qed.

Lemma deleteImage_silent_success_witness :
  deleteImage MemoryStore.platform MemoryStore.photo_url
    (MemoryStore.start MemoryStore.with_photo)
  = (Return tt,
     mkState (MemoryStore.mkMemory [] [])
       [Call_deleteObject MemoryStore.photo_key] []).
Proof.
  apply (deleteImage_silent_success MemoryStore.platform
           MemoryStore.photo_url MemoryStore.photo_key MemoryStore.photo_key
           (MemoryStore.mkMemory [] [])
           (MemoryStore.start MemoryStore.with_photo));
    try reflexivity.
  vm_compute. discriminate.
Defined.

Lemma deleteImage_unencoded_segment_witness :
  let st := MemoryStore.start MemoryStore.with_photo in
  extract_path MemoryStore.platform MemoryStore.foreign_url
  = Return MemoryStore.photo_key
  /\ fst (deleteImage MemoryStore.platform MemoryStore.foreign_url st)
     = Return tt
  /\ calls (snd (deleteImage MemoryStore.platform MemoryStore.foreign_url st))
     = calls st ++ [Call_deleteObject MemoryStore.photo_key].
Proof.
  apply (deleteImage_unencoded_segment MemoryStore.platform
           MemoryStore.foreign_url (lit "/x") MemoryStore.photo_key
           MemoryStore.photo_key
           (MemoryStore.start MemoryStore.with_photo));
    try reflexivity; vm_compute; intuition discriminate.
Defined.

Lemma extract_path_second_marker_witness :
  extract_path MemoryStore.platform MemoryStore.two_marker_url
  = match decodeURIComponent (lit "tattoos%2Fu1") with
    | Some path => Return path
    | None => Throw URIError_malformed
    end.
Proof.
  apply (extract_path_second_marker MemoryStore.platform
           MemoryStore.two_marker_url (lit "/x") (lit "tattoos%2Fu1")
           (lit "rest"));
    try reflexivity; vm_compute; intuition discriminate.
Defined.

Lemma decodeURIComponent_inverts_encodeURIComponent_witness :
  decodeURIComponent MemoryStore.special_encoded
  = Some MemoryStore.special_key
  /\ Forall (fun c => 33 <= c <= 126
                      /\ ~ In c [34; 35; 47; 60; 62; 63; 92; 94; 96; 123; 125])
       MemoryStore.special_encoded.
Proof.
  apply (decodeURIComponent_inverts_encodeURIComponent
           MemoryStore.special_key MemoryStore.special_encoded);
    [|reflexivity].
  apply builder_key_code_units.
  apply (user_key 1700000000000 [117; 32; 233; 55357; 56832]
           (lit "t?1%") (lit "my photo.jpg"));
    [|apply lit_code_units..].
  repeat (apply Forall_cons; [unfold code_unit; lia|]). apply Forall_nil.
Defined.

Lemma blobUrlToFile_failure_witness :
  let st := MemoryStore.start MemoryStore.with_blobs in
  blobUrlToFile MemoryStore.platform (lit "blob:https://app.example/9")
    (lit "x.png") st
  = (Throw (ErrObject "TypeError" None),
     mkState MemoryStore.with_blobs
       [Call_fetch (lit "blob:https://app.example/9")] [])
  /\ blobUrlToFile (MemoryStore.unreadable (ErrObject "TypeError" None))
       (lit "blob:https://app.example/1") (lit "x.png") st
     = (Throw (ErrObject "TypeError" None),
        mkState MemoryStore.with_blobs
          [Call_fetch (lit "blob:https://app.example/1")] []).
Proof.
  cbv zeta.
  destruct (blobUrlToFile_failure MemoryStore.platform
              (lit "blob:https://app.example/9") (lit "x.png")
              (MemoryStore.start MemoryStore.with_blobs)) as [A _].
  destruct (blobUrlToFile_failure
              (MemoryStore.unreadable (ErrObject "TypeError" None))
              (lit "blob:https://app.example/1") (lit "x.png")
              (MemoryStore.start MemoryStore.with_blobs)) as [_ B].
  split.
  - apply A. reflexivity.
  - apply (B (mkResponse (Throw (ErrObject "TypeError" None)))); reflexivity.
Defined.

Lemma upload_then_delete_same_reference_witness :
  let st := MemoryStore.start (MemoryStore.mkMemory [] []) in
  let st1 :=
    mkState MemoryStore.with_photo
      [Call_uploadBytes MemoryStore.photo_key MemoryStore.photo;
       Call_getDownloadURL MemoryStore.photo_key] [] in
  exists r,
    storage_ref MemoryStore.platform MemoryStore.photo_key = Return r
    /\ fst (deleteImage MemoryStore.platform MemoryStore.photo_url st1)
       = Return tt
    /\ calls (snd (deleteImage MemoryStore.platform MemoryStore.photo_url st1))
       = calls st ++ [Call_uploadBytes r MemoryStore.photo;
                      Call_getDownloadURL r; Call_deleteObject r].
Proof.
  apply (upload_then_delete_same_reference MemoryStore.platform
           MemoryStore.photo MemoryStore.photo_key MemoryStore.photo_url
           (MemoryStore.start (MemoryStore.mkMemory [] []))).
  - apply (user_key 1700000000000 (lit "u1") (lit "t1") (lit "photo.jpg"));
      apply lit_code_units.
  - reflexivity.
  - exists (lit "/v0/b/app.appspot.com"),
      (lit "tattoos%2Fu1%2Ft1_1700000000000.jpg").
    split; [|split]; vm_compute; reflexivity.
Defined.


(** ** Which keys the reference platform issues a URL for

    With the reference parser every key that can be encoded, apart from
    "." and "..", has a URL satisfying [issued_for]: the encoded key is a
    single path segment the parser leaves as it is, unless it is a dot
    segment.  For "." and ".." the parser removes the segment, and
    [deleteImage] does nothing. *)

Lemma jsstring_eqb_eq a b : jsstring_eqb a b = true -> a = b.
Proof.
  unfold jsstring_eqb.
  now destruct (list_eq_dec Z.eq_dec a b).
Qed.

Lemma to_lower_eq c k :
  URLParser.to_lower c = k -> c = k \/ (c = k - 32 /\ 97 <= k <= 122).
Proof.
  unfold URLParser.to_lower.
  destruct (in_range 65 90 c) eqn:E; [|now left].
  apply in_range_spec in E. lia.
Qed.

Ltac lower_case H :=
  apply to_lower_eq in H; destruct H as [H|[H ?]]; [|try lia]; subst.

Lemma dot_segment_decodes e :
  URLParser.single_dot e = true \/ URLParser.double_dot e = true ->
  decodeURIComponent e = Some (lit ".")
  \/ decodeURIComponent e = Some (lit "..").
Proof.
  unfold URLParser.single_dot, URLParser.double_dot. cbv zeta.
  rewrite !orb_true_iff.
  intros [[H|H]|[[[H|H]|H]|H]]; apply jsstring_eqb_eq in H.
  - change (lit ".") with [46] in H.
    destruct e as [|a [|? ?]]; try discriminate H.
    injection H as A. lower_case A. now left.
  - change (lit "%2e") with [37; 50; 101] in H.
    destruct e as [|a [|b [|c [|? ?]]]]; try discriminate H.
    injection H as A B C. lower_case A. lower_case B. lower_case C;
      now left.
  - change (lit "..") with [46; 46] in H.
    destruct e as [|a [|b [|? ?]]]; try discriminate H.
    injection H as A B. lower_case A. lower_case B. now right.
  - change (lit ".%2e") with [46; 37; 50; 101] in H.
    destruct e as [|a [|b [|c [|d [|? ?]]]]]; try discriminate H.
    injection H as A B C D.
    lower_case A. lower_case B. lower_case C. lower_case D; now right.
  - change (lit "%2e.") with [37; 50; 101; 46] in H.
    destruct e as [|a [|b [|c [|d [|? ?]]]]]; try discriminate H.
    injection H as A B C D.
    lower_case A. lower_case B. lower_case D. lower_case C; now right.
  - change (lit "%2e%2e") with [37; 50; 101; 37; 50; 101] in H.
    destruct e as [|a [|b [|c [|d [|f [|g [|? ?]]]]]]]; try discriminate H.
    injection H as A B C D F G.
    lower_case A. lower_case B. lower_case D. lower_case F.
    lower_case C; lower_case G; now right.
Qed.

Lemma encoded_key_not_dot_segment key encoded :
  Forall code_unit key ->
  encodeURIComponent key = Some encoded ->
  key <> lit "." -> key <> lit ".." ->
  URLParser.single_dot encoded = false
  /\ URLParser.double_dot encoded = false.
Proof.
  intros Hk He H1 H2.
  pose proof (decode_encode _ _ Hk He) as Hd.
  destruct (URLParser.single_dot encoded) eqn:Hs.
  - destruct (dot_segment_decodes encoded (or_introl Hs)) as [D|D];
      rewrite Hd in D; injection D as ->; congruence.
  - destruct (URLParser.double_dot encoded) eqn:Hdd; [|now split].
    destruct (dot_segment_decodes encoded (or_intror Hdd)) as [D|D];
      rewrite Hd in D; injection D as ->; congruence.
Qed.

Lemma pathname_of_issued_segment enc :
  Forall uri_encoded_unit enc ->
  URLParser.single_dot enc = false -> URLParser.double_dot enc = false ->
  URLParser.pathname
    (MemoryStore.url_prefix ++ marker ++ enc ++ lit "?alt=media&token=t0")
  = Some (lit "/v0/b/app.appspot.com" ++ marker ++ enc).
Proof.
  intros He Hs Hd.
  set (url := MemoryStore.url_prefix ++ marker ++ enc
                ++ lit "?alt=media&token=t0").
  assert (Hpre : URLParser.preprocess url = url).
  { unfold URLParser.preprocess. cbv zeta. rewrite trim_id.
    - apply filter_id. unfold url.
      repeat (apply Forall_app; split);
        try (apply Forall_encoded with (2 := He), encoded_no_newline);
        apply Forall_forall, forallb_forall; reflexivity.
    - reflexivity.
    - unfold url.
      change (lit "?alt=media&token=t0")
        with (lit "?alt=media&token=t" ++ [48]).
      rewrite !app_assoc. now rewrite last_last. }
  unfold URLParser.pathname. rewrite Hpre.
  change (URLParser.parse_scheme url)
    with (Some (lit "https",
                (lit "//firebasestorage.googleapis.com/v0/b/app.appspot.com/o/"
                   ++ enc) ++ 63 :: lit "alt=media&token=t0")).
  cbv beta iota.
  rewrite break_at_stop; [|apply Forall_app; split|reflexivity].
  2: apply Forall_false_of_existsb; reflexivity.
  2: apply Forall_encoded with (2 := He), encoded_no_query.
  cbv beta iota.
  change (URLParser.special_scheme (lit "https")) with true. cbv iota.
  change (URLParser.drop_while URLParser.any_slash
            (lit "//firebasestorage.googleapis.com/v0/b/app.appspot.com/o/"
               ++ enc))
    with (lit "firebasestorage.googleapis.com"
            ++ 47 :: lit "v0/b/app.appspot.com/o/" ++ enc).
  rewrite break_at_stop;
    [|apply Forall_false_of_existsb; reflexivity | reflexivity].
  cbv beta iota.
  change (is_empty (lit "firebasestorage.googleapis.com")) with false.
  cbv iota. f_equal.
  change (URLParser.path_start true
            (47 :: lit "v0/b/app.appspot.com/o/" ++ enc))
    with (URLParser.serialize_path
            (URLParser.path_state []
               (lit "v0" :: lit "b" :: lit "app.appspot.com" :: lit "o"
                  :: URLParser.split_on URLParser.any_slash [] enc))).
  rewrite split_on_none
    by (apply Forall_encoded with (2 := He), encoded_no_any_slash).
  rewrite !path_state_plain by (reflexivity || assumption).
  cbn [URLParser.path_state app].
  rewrite (percent_encode_id _ enc)
    by (apply Forall_encoded with (2 := He), encoded_not_path_set).
  unfold URLParser.serialize_path. cbn [flat_map].
  rewrite app_nil_r. reflexivity.
Qed.

(** Every encodable key other than "." and ".." has an issued URL. *)
Lemma MemoryStore_issued_for_key key encoded :
  Forall code_unit key ->
  encodeURIComponent key = Some encoded ->
  key <> lit "." -> key <> lit ".." ->
  issued_for MemoryStore.platform
    (MemoryStore.url_prefix ++ marker ++ encoded ++ lit "?alt=media&token=t0")
    key.
Proof.
  intros Hk He H1 H2.
  destruct (encoded_key_not_dot_segment key encoded Hk He H1 H2) as [Hs Hd].
  exists (lit "/v0/b/app.appspot.com"), encoded.
  split; [exact He|]. split; [|reflexivity].
  apply pathname_of_issued_segment; auto.
  now apply (encodeURIComponent_units key).
Qed.

(** For the keys "." and ".." the URL of the store has no segment left
    after the marker, or no marker, and [deleteImage] does nothing. *)
Example deleteImage_dot_keys :
  let st := MemoryStore.start MemoryStore.with_photo in
  encodeURIComponent (lit ".") = Some (lit ".")
  /\ encodeURIComponent (lit "..") = Some (lit "..")
  /\ URLParser.pathname
       (MemoryStore.url_prefix ++ lit "/o/.?alt=media&token=t0")
     = Some (lit "/v0/b/app.appspot.com/o/")
  /\ URLParser.pathname
       (MemoryStore.url_prefix ++ lit "/o/..?alt=media&token=t0")
     = Some (lit "/v0/b/app.appspot.com/")
  /\ deleteImage MemoryStore.platform
       (MemoryStore.url_prefix ++ lit "/o/.?alt=media&token=t0") st
     = (Return tt, st)
  /\ deleteImage MemoryStore.platform
       (MemoryStore.url_prefix ++ lit "/o/..?alt=media&token=t0") st
     = (Return tt, st).
Proof. cbv zeta. repeat split. Qed.
